(** * Outline inference from positioned text lines: process_pdfs.py

    A shallow embedding of [merge_nearby_lines], [get_all_text_lines] and
    [extract_document_structure], and the properties of the line
    reconciler and of the outline inferencer that follow from the code.

    Conventions of the embedding.
    - A bounding-box coordinate and a font size are Python floats, as
      the PDF engine reports them: finite binary64 values, each held as
      the rational [Qc] that it is.  A threshold is an [int] or a finite
      float, held likewise.  Comparison, equality, [min] and [max] are
      exact on such values.  The one operation of the program that
      rounds is the subtraction of two floats inside the merge test:
      [Py.sub] rounds the exact difference to the nearest binary64
      value, ties to even, and overflows to an infinity, and [Py.abs_lt]
      compares its absolute value with the threshold.  NaN and infinite
      inputs are outside the model.
    - A page number is a Python [int], here [Z].
    - A [str] is a [string] whose characters are code points below 256.
    - The line dicts are mutable objects: a [store] holds them and the
      lists of the program hold references ([loc]) into it, so that the
      in-place updates of [merge_nearby_lines] are seen through every
      alias.
    - A call that raises an exception which nothing catches has the
      result [None].  The PDF engine raises when a file cannot be
      opened, which [extract_document_structure] catches, and when a
      page of an opened file cannot be read, which nothing catches. *)

From Stdlib Require Import QArith Qcanon Qcabs.
From stdpp Require Import base numbers list strings gmap pretty sorting.

#[local] Set Warnings "-clear-no-such-hyp".

(** ** Python builtins used by the program *)

Module Py.

(** [min(a, b)]: the first argument unless the second is smaller. *)
Definition min (a b : Qc) : Qc := if bool_decide (b < a)%Qc then b else a.

(** [max(a, b)]: the first argument unless the second is larger. *)
Definition max (a b : Qc) : Qc := if bool_decide (a < b)%Qc then b else a.

(** [max(iterable, key=key)] on a non-empty iterable whose first item is
    [cur]: the item at hand is replaced only by an item of larger key. *)
Fixpoint max_from {A K} (lt : K → K → bool) (key : A → K)
    (cur : A) (l : list A) : A :=
  match l with
  | [] => cur
  | x :: l' =>
      if lt (key cur) (key x) then max_from lt key x l'
      else max_from lt key cur l'
  end.

Definition max_list (cur : Qc) (l : list Qc) : Qc :=
  max_from (λ a b, bool_decide (a < b)%Qc) id cur l.

(** [sep.join(l)]. *)
Fixpoint join (sep : string) (l : list string) : string :=
  match l with
  | [] => ""
  | [x] => x
  | x :: l' => x +:+ sep +:+ join sep l'
  end.

(** [str.isspace] on one character, for code points below 256. *)
Definition is_space (c : Ascii.ascii) : bool :=
  let n := Ascii.nat_of_ascii c in
  ((9 <=? n)%nat && (n <=? 13)%nat) || ((28 <=? n)%nat && (n <=? 32)%nat)
  || (n =? 133)%nat || (n =? 160)%nat.

(** [s.split()]: the maximal runs of non-space characters of [s];
    [word] is the run being read. *)
Fixpoint split_from (word : string) (s : string) : list string :=
  match s with
  | EmptyString => if bool_decide (word = "") then [] else [word]
  | String c s' =>
      if is_space c then
        if bool_decide (word = "") then split_from "" s'
        else word :: split_from "" s'
      else split_from (word +:+ String c "") s'
  end.

Definition split (s : string) : list string := split_from "" s.

(** [s.strip()]. *)
Fixpoint lstrip (s : string) : string :=
  match s with
  | String c s' => if is_space c then lstrip s' else s
  | EmptyString => ""
  end.

Definition strip (s : string) : string :=
  String.rev (lstrip (String.rev (lstrip s))).

(** [collections.Counter]: a dict from value to count; a dict keeps its
    keys in the order of their first insertion, so it is an association
    list here. *)
Fixpoint counter_add (x : Qc) (c : list (Qc * nat)) : list (Qc * nat) :=
  match c with
  | [] => [(x, 1%nat)]
  | (k, n) :: c' =>
      if bool_decide (k = x) then (k, S n) :: c'
      else (k, n) :: counter_add x c'
  end.

Definition Counter (l : list Qc) : list (Qc * nat) :=
  foldl (λ c x, counter_add x c) [] l.

(** [c.most_common(1)]: [heapq.nlargest(1, c.items(), key=count)],
    which is [max] over the items in dict order. *)
Definition most_common_1 (c : list (Qc * nat)) : list (Qc * nat) :=
  match c with
  | [] => []
  | kv :: c' => [max_from Nat.ltb snd kv c']
  end.

(** [list.sort] and [sorted]: a stable sort that compares with [<] only.
    Each item goes behind the items that are not larger than it. *)
Fixpoint insert_sorted {A} (lt : A → A → bool) (x : A) (l : list A) : list A :=
  match l with
  | [] => [x]
  | y :: l' => if lt x y then x :: y :: l' else y :: insert_sorted lt x l'
  end.

Definition sort {A} (lt : A → A → bool) (l : list A) : list A :=
  foldl (λ acc x, insert_sorted lt x acc) [] l.

(** [sorted(l, reverse=True)]: reverse, sort, reverse. *)
Definition sorted_reverse {A} (lt : A → A → bool) (l : list A) : list A :=
  reverse (sort lt (reverse l)).

(** [<] on tuples [(int, number)]: decided by the first component in
    which the two tuples differ. *)
Definition tuple_lt (a b : Z * Qc) : bool :=
  if bool_decide (a.1 = b.1) then
    if bool_decide (a.2 = b.2) then false else bool_decide (a.2 < b.2)%Qc
  else bool_decide (a.1 < b.1)%Z.

(** *** binary64 subtraction *)

(** [2^e <= n/d], for positive [n] and [d]. *)
Definition pow2_le (e n d : Z) : bool :=
  (d * 2 ^ Z.max e 0 <=? n * 2 ^ Z.max (- e) 0)%Z.

(** The binary exponent of the positive rational [n/d]: the [e] with
    [2^e <= n/d < 2^(e+1)]. *)
Definition exponent (n d : Z) : Z :=
  let e := (Z.log2 n - Z.log2 d)%Z in
  if pow2_le e n d then e else (e - 1)%Z.

(** [n/d] rounded to the nearest integer, a tie to the even one. *)
Definition round_half_even (n d : Z) : Z :=
  let k := (n / d)%Z in
  let r := (n mod d)%Z in
  if (2 * r <? d)%Z then k
  else if (d <? 2 * r)%Z then (k + 1)%Z
  else if Z.even k then k else (k + 1)%Z.

(** The binary64 value nearest to the positive rational [n/d]: 53
    significant bits, the last one of weight [2^q], where [q] is not below
    the weight -1074 of the subnormal numbers; [None] is the infinity that
    a value of [2^1024] or more becomes. *)
Definition round_pos (n d : Z) : option Qc :=
  let e := exponent n d in
  let q := Z.max (e - 52) (-1074) in
  let m := round_half_even (n * 2 ^ Z.max (- q) 0) (d * 2 ^ Z.max q 0) in
  let num := (m * 2 ^ Z.max q 0)%Z in
  if (2 ^ 1024 <=? num)%Z then None
  else Some (Q2Qc (Qmake num (Z.to_pos (2 ^ Z.max (- q) 0)))).

(** The float nearest to a rational; rounding is symmetric in the sign. *)
Definition float (x : Qc) : option Qc :=
  match Qnum x with
  | Z0 => Some x
  | Zpos n => round_pos (Zpos n) (Zpos (Qden x))
  | Zneg n => Qcopp <$> round_pos (Zpos n) (Zpos (Qden x))
  end.

(** [a - b] on floats: the exact difference, rounded. *)
Definition sub (a b : Qc) : option Qc := float (a - b).

(** [abs(v) < t] for the result [v] of a subtraction and a finite [t]:
    [abs] is exact, and an infinity is below no finite number. *)
Definition abs_lt (v : option Qc) (t : Qc) : bool :=
  match v with
  | Some v => bool_decide (Qcabs v < t)%Qc
  | None => false
  end.

End Py.

(** ** Data model *)

(** A bounding box [(x0, y0, x1, y1)], a Python 4-tuple. *)
Definition BBox : Type := Qc * Qc * Qc * Qc.

Definition bbox_0 (b : BBox) : Qc := b.1.1.1.
Definition bbox_1 (b : BBox) : Qc := b.1.1.2.
Definition bbox_2 (b : BBox) : Qc := b.1.2.
Definition bbox_3 (b : BBox) : Qc := b.2.

(** The line dict [{"text", "font_size", "page_num", "bbox"}]. *)
Record Line : Type := mkLine {
  text : string;
  font_size : Qc;
  page_num : Z;
  bbox : BBox
}.

Definition set_text (l : Line) (s : string) : Line :=
  mkLine s (font_size l) (page_num l) (bbox l).

Definition set_bbox (l : Line) (b : BBox) : Line :=
  mkLine (text l) (font_size l) (page_num l) b.

(** The line dicts of a run of the program, by address. *)
Abbreviation loc := nat (only parsing).
Abbreviation store := (list Line) (only parsing).

(** The values behind a list of references. *)
Definition deref (h : store) (refs : list loc) : option (list Line) :=
  mapM (λ r : loc, h !! r) refs.

(** The heading dict [{"level", "text", "page", "bbox"}] and the public
    outline entry [{"level", "text", "page"}]. *)
Record Heading : Type := mkHeading {
  h_level : string;
  h_text : string;
  h_page : Z;
  h_bbox : BBox
}.

Record OutlineEntry : Type := mkOutlineEntry {
  level : string;
  o_text : string;
  page : Z
}.

Record DocumentStructure : Type := mkDocumentStructure {
  title : string;
  outline : list OutlineEntry
}.

(** What the PDF engine reports: pages, their blocks, the lines of a text
    block and the spans of a line.  [block_lines] and [spans] are absent
    or present, as [dict.get] with a default reads them. *)
Record Span : Type := mkSpan {
  span_text : string;
  span_size : Qc
}.

Record PdfLine : Type := mkPdfLine {
  spans : option (list Span);
  line_bbox : BBox
}.

Record Block : Type := mkBlock {
  block_type : Z;
  block_lines : option (list PdfLine)
}.

Definition Page : Type := list Block.
Definition Doc : Type := list Page.

(** What [fitz.open] returns when it returns: a document whose pages can
    all be read, or one (encrypted, damaged) that yields the pages [read]
    and then raises [e] when the next page is loaded or its text is
    asked for.  A document that can be read is its pages. *)
Inductive Opened : Type :=
  | Readable (doc : Doc)
  | Unreadable (read : Doc) (e : string).

Coercion Readable : Doc >-> Opened.

#[local] Arguments inr {A B}%_type_scope & _.

(** ** merge_nearby_lines *)

(** The test of lines 21-23 on the dicts [next_line] and [current_line]:
    both differences are float subtractions. *)
Definition merge_test (threshold : Qc) (current_line next_line : Line) : bool :=
  bool_decide (page_num next_line = page_num current_line)
  && Py.abs_lt (Py.sub (bbox_1 (bbox next_line)) (bbox_3 (bbox current_line))) threshold
  && Py.abs_lt (Py.sub (font_size next_line) (font_size current_line)) 1.

(** The tuple built at lines 27-32. *)
Definition bbox_union (c n : BBox) : BBox :=
  (Py.min (bbox_0 c) (bbox_0 n), Py.min (bbox_1 c) (bbox_1 n),
   Py.max (bbox_2 c) (bbox_2 n), Py.max (bbox_3 c) (bbox_3 n)).

(** The loop of lines 19-37 over [lines[1:]], with the local variables
    [merged_lines] and [current_line] and the store of the dicts.  The two
    assignments of the merging branch each read the dicts as they are at
    that point.  [None] stands for a reference to no dict, which a Python
    program cannot hold. *)
Fixpoint merge_loop (threshold : Qc) (rest : list loc)
    (merged_lines : list loc) (current_line : loc) (h : store)
    : option (list loc * store) :=
  match rest with
  | [] => Some (merged_lines ++ [current_line], h)
  | next_line :: rest' =>
      nl ← h !! next_line;
      cl ← h !! current_line;
      if merge_test threshold cl nl then
        let h1 := <[current_line := set_text cl (text cl +:+ (" " +:+ text nl))]> h in
        nl1 ← h1 !! next_line;
        cl1 ← h1 !! current_line;
        let h2 := <[current_line := set_bbox cl1 (bbox_union (bbox cl1) (bbox nl1))]> h1 in
        merge_loop threshold rest' merged_lines current_line h2
      else
        merge_loop threshold rest' (merged_lines ++ [current_line]) next_line h
  end.

Definition merge_nearby_lines (lines : list loc) (threshold : Qc) (h : store)
    : option (list loc * store) :=
  match lines with
  | [] => Some ([], h)
  | first :: rest => merge_loop threshold rest [] first h
  end.

(** The default [threshold=5]. *)
Definition default_threshold : Qc := Qc_of_Z 5.

(** ** get_all_text_lines *)

(** The body of the innermost loop (lines 48-64) for one reported line:
    [lines] is the list being built, and the new dict is a fresh object of
    the store.  [None] stands for the [IndexError] of [most_common(1)[0]]
    on an empty counter. *)
Definition text_line_step (page_num : Z) (st : list loc * store) (line : PdfLine)
    : option (list loc * store) :=
  match default [] (spans line) with
  | [] => Some st
  | (_ :: _) as spans =>
      let text := Py.strip (Py.join "" (map span_text spans)) in
      if bool_decide (text = "") then Some st
      else
        let font_sizes := Py.Counter (map span_size spans) in
        top ← head (Py.most_common_1 font_sizes);
        let dominant_size := top.1 in
        Some (st.1 ++ [length st.2],
              st.2 ++ [mkLine text dominant_size page_num (line_bbox line)])
  end.

Definition block_step (page_num : Z) (st : list loc * store) (block : Block)
    : option (list loc * store) :=
  if bool_decide (block_type block = 0%Z) then
    foldl (λ acc line, st' ← acc; text_line_step page_num st' line)
          (Some st) (default [] (block_lines block))
  else Some st.

Definition page_step (st : list loc * store) (numbered : nat * Page)
    : option (list loc * store) :=
  foldl (λ acc block, st' ← acc; block_step (Z.of_nat numbered.1) st' block)
        (Some st) numbered.2.

(** The loop of lines 43-64 over the pages that the document yields. *)
Definition read_pages (pages : Doc) (h : store) : option (list loc * store) :=
  foldl (λ acc numbered, st' ← acc; page_step st' numbered)
        (Some ([], h)) (imap pair pages).

(** Lines 40-65.  Nothing catches the exception of a document that
    cannot be read to its end: the call raises, which is [None] here,
    after the pages before the failure have gone through the loop. *)
Definition get_all_text_lines (doc : Opened) (h : store) : option (list loc * store) :=
  match doc with
  | Readable pages => read_pages pages h
  | Unreadable pages e => _ ← read_pages pages h; None
  end.

(** ** extract_document_structure *)

(** Lines 85-95: the title and the bounding boxes of its lines. *)
Definition title_extraction (lines : list Line) : string * list BBox :=
  let first_page_lines := filter (λ line, page_num line = 0%Z) lines in
  match first_page_lines with
  | [] => ("", [])
  | first :: rest =>
      let max_font_size := Py.max_list (font_size first) (map font_size rest) in
      let title_lines :=
        filter (λ line, font_size line = max_font_size) first_page_lines in
      (Py.join " " (map text title_lines), map bbox title_lines)
  end.

(** Lines 98-99. *)
Definition baseline_size (lines : list Line) : option Qc :=
  let font_sizes := map font_size lines in
  match font_sizes with
  | [] => Some (Qc_of_Z 12)
  | _ :: _ => top ← head (Py.most_common_1 (Py.Counter font_sizes)); Some top.1
  end.

(** Lines 102-108: one turn of the loop that fills [candidates]. *)
Definition candidate_step (title_bboxes : list BBox) (baseline : Qc)
    (candidates : list Line) (line : Line) : list Line :=
  if bool_decide (bbox line ∈ title_bboxes) then candidates
  else if bool_decide (baseline < font_size line)%Qc
          && (length (Py.split (text line)) <? 20)%nat
       then candidates ++ [line]
       else candidates.

Definition heading_candidates (title_bboxes : list BBox) (baseline : Qc)
    (lines : list Line) : list Line :=
  foldl (candidate_step title_bboxes baseline) [] lines.

(** Line 114. *)
Definition heading_font_sizes (candidates : list Line) : list Qc :=
  Py.sorted_reverse (λ a b, bool_decide (a < b)%Qc)
    (elements (list_to_set (map font_size candidates) : gset Qc)).

(** Line 115: the dict comprehension over [enumerate(heading_font_sizes[:4])]. *)
Definition size_to_level (sizes : list Qc) : gmap Qc string :=
  foldl (λ m (e : nat * Qc), <[e.2 := "H" +:+ pretty (e.1 + 1)%nat]> m)
        ∅ (imap pair (take 4 sizes)).

(** Lines 118-125: one turn of the loop that fills [headings]. *)
Definition heading_step (levels : gmap Qc string)
    (headings : list Heading) (c : Line) : list Heading :=
  match levels !! font_size c with
  | Some lv => headings ++ [mkHeading lv (text c) (page_num c + 1) (bbox c)]
  | None => headings
  end.

Definition classify (candidates : list Line) : list Heading :=
  foldl (heading_step (size_to_level (heading_font_sizes candidates))) [] candidates.

(** Line 127: the sort key and the order on it. *)
Definition sort_key (h : Heading) : Z * Qc := (h_page h, bbox_1 (h_bbox h)).

Definition sort_headings (headings : list Heading) : list Heading :=
  Py.sort (λ a b, Py.tuple_lt (sort_key a) (sort_key b)) headings.

(** Line 128. *)
Definition emit (h : Heading) : OutlineEntry :=
  mkOutlineEntry (h_level h) (h_text h) (h_page h).

(** Lines 111-128. *)
Definition build_outline (candidates : list Line) : list OutlineEntry :=
  match candidates with
  | [] => []
  | _ :: _ => map emit (sort_headings (classify candidates))
  end.

(** Lines 79-131, on the values of the merged line dicts, which the
    program only reads from here on. *)
Definition infer (lines : list Line) : option DocumentStructure :=
  match lines with
  | [] => Some (mkDocumentStructure "" [])
  | _ :: _ =>
      let '(extracted_title, title_bboxes) := title_extraction lines in
      baseline ← baseline_size lines;
      let candidates := heading_candidates title_bboxes baseline lines in
      Some (mkDocumentStructure extracted_title (build_outline candidates))
  end.

(** [fitz.open(pdf_path)] either raises an exception, given by its message,
    or yields the document.  Only that call is inside the [try] of lines
    69-77; an exception raised later leaves the function, and the result
    is [None] then. *)
Definition extract_document_structure (fitz_open : string → string + Opened)
    (pdf_path : string) : option DocumentStructure :=
  match fitz_open pdf_path with
  | inl e => Some (mkDocumentStructure ("Error: " +:+ e) [])
  | inr doc =>
      '(raw_lines, h1) ← get_all_text_lines doc [];
      '(lines, h2) ← merge_nearby_lines raw_lines default_threshold h1;
      merged ← deref h2 lines;
      infer merged
  end.

(** [merge_nearby_lines] as [extract_document_structure] calls it: on a
    list of line dicts that are objects of their own. *)
Definition merge_values (threshold : Qc) (lines : list Line) : option (list Line) :=
  '(out, h) ← merge_nearby_lines (seq 0 (length lines)) threshold lines;
  deref h out.

(** ** The reconciler and the outline as the specification words them *)

Module Spec.

Definition qmin (a b : Qc) : Qc := if decide (a ≤ b)%Qc then a else b.
Definition qmax (a b : Qc) : Qc := if decide (a ≤ b)%Qc then b else a.

(** The merge predicate: same page, vertical gap below the threshold,
    font sizes less than 1 apart, the gap and the distance of the sizes
    being differences of floats. *)
Definition mergeable (t : Qc) (acc next : Line) : Prop :=
  page_num next = page_num acc
  ∧ Py.abs_lt (Py.sub (bbox_1 (bbox next)) (bbox_3 (bbox acc))) t = true
  ∧ Py.abs_lt (Py.sub (font_size next) (font_size acc)) 1 = true.

(** The coordinate-wise union of two boxes. *)
Definition union (a b : BBox) : BBox :=
  (qmin (bbox_0 a) (bbox_0 b), qmin (bbox_1 a) (bbox_1 b),
   qmax (bbox_2 a) (bbox_2 b), qmax (bbox_3 a) (bbox_3 b)).

(** The accumulator after [next] is merged into it. *)
Definition fuse (acc next : Line) : Line :=
  mkLine ((text acc +:+ " ") +:+ text next) (font_size acc) (page_num acc)
         (union (bbox acc) (bbox next)).

(** One step of the fold: the state is the output so far and the
    accumulator. *)
Definition step (t : Qc) (st : list Line * Line) (next : Line)
    : list Line * Line :=
  if decide (mergeable t st.2 next) then (st.1, fuse st.2 next)
  else (st.1 ++ [st.2], next).

Definition merge (t : Qc) (lines : list Line) : list Line :=
  match lines with
  | [] => []
  | first :: rest =>
      let st := foldl (step t) ([], first) rest in
      st.1 ++ [st.2]
  end.

(** The line that a run of input lines is fused into. *)
Definition fuse_all (first : Line) (others : list Line) : Line :=
  foldl fuse first others.

(** [c] may join a run that [first] starts, as far as page and font
    size go. *)
Definition close_to (first c : Line) : Prop :=
  page_num c = page_num first
  ∧ (Qcabs (font_size c - font_size first) < 1)%Qc.

(** [o] is the fusion of the non-empty run [r], whose lines are all
    close to its first one. *)
Definition run_of (r : list Line) (o : Line) : Prop :=
  ∃ first others, r = first :: others ∧ o = fuse_all first others
    ∧ Forall (close_to first) others.

(** An output in which no two neighbours satisfy the merge predicate. *)
Fixpoint maximal (t : Qc) (out : list Line) : bool :=
  match out with
  | a :: (b :: _) as out' => negb (bool_decide (mergeable t a b)) && maximal t out'
  | _ => true
  end.

(** A string without white space, and a string without its white space. *)
Fixpoint space_free (w : string) : bool :=
  match w with
  | EmptyString => true
  | String c w' => negb (Py.is_space c) && space_free w'
  end.

Fixpoint drop_spaces (s : string) : string :=
  match s with
  | EmptyString => ""
  | String c s' => if Py.is_space c then drop_spaces s' else String c (drop_spaces s')
  end.

(** Two items tie under [lt] when neither is smaller than the other. *)
Definition ties {A} (lt : A → A → bool) (a b : A) : Prop :=
  lt a b = false ∧ lt b a = false.

#[global] Instance ties_dec {A} (lt : A → A → bool) (a b : A) :
  Decision (ties lt a b) := and_dec _ _.

(** The reading order on keys (page, top edge). *)
Definition key_le (a b : Z * Qc) : Prop :=
  (a.1 < b.1)%Z ∨ (a.1 = b.1 ∧ (a.2 ≤ b.2)%Qc).

(** The key on the 0-based page index of a line. *)
Definition reading_key (c : Line) : Z * Qc := (page_num c, bbox_1 (bbox c)).

(** The order of the keys on lines, before the page number is made
    1-based. *)
Definition reading_lt (a b : Line) : bool :=
  Py.tuple_lt (reading_key a) (reading_key b).

(** The public entry of a line with its level. *)
Definition entry (lv : Line → string) (c : Line) : OutlineEntry :=
  mkOutlineEntry (lv c) (text c) (page_num c + 1).

(** The level of the tier of rank [i], the largest size having rank 0. *)
Definition level_name (i : nat) : string :=
  match i with
  | 0 => "H1"
  | 1 => "H2"
  | 2 => "H3"
  | _ => "H4"
  end.

(** The number of occurrences of [x] in [l]. *)
Definition occurrences (x : Qc) (l : list Qc) : nat :=
  length (filter (λ y, y = x) l).

(** [b] is the most frequent value of [l], the first one met among the
    most frequent ones. *)
Definition mode_of (l : list Qc) (b : Qc) : Prop :=
  (∀ x, occurrences x l ≤ occurrences b l)%nat
  ∧ ∃ l1 l2, l = l1 ++ b :: l2 ∧ (b ∉ l1)
      ∧ (∀ x, x ∈ l1 → (occurrences x l < occurrences b l)%nat).

End Spec.

(** ** Auxiliary functions of the proofs *)

(** The level of a candidate under a level map, and the heading dict that
    the loop of lines 118-125 builds for it. *)
Definition level_of (levels : gmap Qc string) (c : Line) : string :=
  default "" (levels !! font_size c).

Definition to_heading (levels : gmap Qc string) (c : Line) : Heading :=
  mkHeading (level_of levels c) (text c) (page_num c + 1) (bbox c).

(** The order that [list.sort] uses on the heading dicts. *)
Definition heading_lt (a b : Heading) : bool :=
  Py.tuple_lt (sort_key a) (sort_key b).

(** The lines that the loop of [merge_nearby_lines] appends, on values:
    [acc] is the value of [current_line]. *)
Fixpoint merge_from (t : Qc) (acc : Line) (rest : list Line) : list Line :=
  match rest with
  | [] => [acc]
  | next :: rest' =>
      if merge_test t acc next then merge_from t (Spec.fuse acc next) rest'
      else acc :: merge_from t next rest'
  end.

(** The runs of input lines behind the lines of [merge_from]: [run] holds
    the lines merged into [acc] so far, the first one apart. *)
Fixpoint runs_from (t : Qc) (acc : Line) (run : list Line) (rest : list Line)
    : list (list Line) :=
  match rest with
  | [] => [run]
  | next :: rest' =>
      if merge_test t acc next then runs_from t (Spec.fuse acc next) (run ++ [next]) rest'
      else run :: runs_from t next [next] rest'
  end.

(** The references of [st] are pairwise distinct and point into its
    store. *)
Definition distinct_dicts (st : list nat * list Line) : Prop :=
  NoDup st.1 ∧ Forall (λ r, r < length st.2) st.1.

(** The distinct values of a list in the order of their first occurrence:
    the keys of its [Counter]. *)
Fixpoint first_occurrences (l : list Qc) : list Qc :=
  match l with
  | [] => []
  | x :: l' => x :: filter (λ y, y ≠ x) (first_occurrences l')
  end.

(** ** Sample documents *)

Definition qz (n : Z) : Qc := Qc_of_Z n.
Definition qf (n : Z) (d : positive) : Qc := Q2Qc (Qmake n d).
Definition bx (a b c d : Z) : BBox := (qz a, qz b, qz c, qz d).

(** Three stacked lines of one page with font sizes 10, 10.75 and 9.25. *)
Definition stacked_a : Line := mkLine "alpha" (qz 10) 0 (bx 0 0 10 10).
Definition stacked_b : Line := mkLine "beta" (qf 43 4) 0 (bx 0 10 10 20).
Definition stacked_c : Line := mkLine "gamma" (qf 37 4) 0 (bx 0 20 10 30).
Definition stacked : list Line := [stacked_a; stacked_b; stacked_c].

(** Two fragments 2 apart and a third one 8 below (scenarios B and C). *)
Definition fragments : list Line :=
  [mkLine "a" (qz 10) 0 (bx 0 100 100 110);
   mkLine "b" (qz 10) 0 (bx 0 112 100 120);
   mkLine "c" (qz 10) 0 (bx 0 128 100 140)].

(** The store after [merge_nearby_lines] has run on the dicts of
    [fragments]: the first dict holds the merged line. *)
Definition fragments_merged : list Line :=
  [mkLine "a b" (qz 10) 0 (bx 0 100 100 120);
   mkLine "b" (qz 10) 0 (bx 0 112 100 120);
   mkLine "c" (qz 10) 0 (bx 0 128 100 140)].

(** A document with a title, body text in font 12 and headings in six
    font sizes above it, on two pages. *)
Definition six_tiers : list Line :=
  [mkLine "Title" (qz 24) 0 (bx 0 0 100 24);
   mkLine "body one" (qz 12) 0 (bx 0 40 100 52);
   mkLine "sixteen" (qz 16) 1 (bx 0 50 100 62);
   mkLine "eighteen" (qz 18) 1 (bx 0 10 100 22);
   mkLine "nineteen" (qz 19) 1 (bx 0 5 100 9);
   mkLine "fifteen" (qz 15) 1 (bx 0 70 100 80);
   mkLine "fourteen" (qz 14) 0 (bx 0 60 100 70);
   mkLine "thirteen" (qz 13) 0 (bx 0 80 100 90);
   mkLine "body two" (qz 12) 0 (bx 0 100 100 112);
   mkLine "body three" (qz 12) 0 (bx 0 120 100 132)].

(** A one-page document as the PDF engine reports it: a text block with
    a two-span line and a blank line, and an image block. *)
Definition small_doc : Doc :=
  [[mkBlock 0 (Some [mkPdfLine (Some [mkSpan " Intro" (qz 18); mkSpan "duction " (qz 18)])
                               (bx 0 0 100 18);
                     mkPdfLine (Some [mkSpan "  " (qz 12)]) (bx 0 20 100 32);
                     mkPdfLine (Some [mkSpan "plain " (qz 12); mkSpan "Text" (qz 14);
                                      mkSpan " here" (qz 12)])
                               (bx 0 40 100 52);
                     mkPdfLine None (bx 0 60 100 72)]);
    mkBlock 1 None]].

(** ** process_pdfs *)

(** The loop of lines 138-145 over the files that the glob found, in its
    order.  The output directory is a map from path to the data dumped
    there; a dump to a path replaces what the path held.  [stem] is
    [Path.stem].  A result dict has two keys, so [if data] holds whenever
    there is a result.  Nothing catches an exception of
    [extract_document_structure]: it leaves the loop, the files after it
    are not read, and what was dumped before stays.  The result is the
    output directory and whether the loop ran to its end. *)
Definition output_file (stem : string → string) (pdf_file : string) : string :=
  "/app/output/" +:+ stem pdf_file +:+ ".json".

Fixpoint process_pdfs (fitz_open : string → string + Opened) (stem : string → string)
    (found : list string) (out : gmap string DocumentStructure)
    : gmap string DocumentStructure * bool :=
  match found with
  | [] => (out, true)
  | pdf_file :: found' =>
      match extract_document_structure fitz_open pdf_file with
      | Some data =>
          process_pdfs fitz_open stem found' (<[output_file stem pdf_file := data]> out)
      | None => (out, false)
      end
  end.

(** ** Further auxiliary functions of the proofs *)

(** The dict that lines 48-64 build for one reported line on page
    [page_num], if they build one. *)
Definition line_record (page_num : Z) (line : PdfLine) : option Line :=
  match default [] (spans line) with
  | [] => None
  | (_ :: _) as spans =>
      let text := Py.strip (Py.join "" (map span_text spans)) in
      if bool_decide (text = "") then None
      else
        top ← head (Py.most_common_1 (Py.Counter (map span_size spans)));
        Some (mkLine text top.1 page_num (line_bbox line))
  end.

(** The dicts of a block, of a page and of a document, in the order in
    which the loops of [get_all_text_lines] build them. *)
Definition block_records (page_num : Z) (block : Block) : list Line :=
  if bool_decide (block_type block = 0%Z)
  then omap (line_record page_num) (default [] (block_lines block))
  else [].

Definition page_records (numbered : nat * Page) : list Line :=
  concat (map (block_records (Z.of_nat numbered.1)) numbered.2).

Definition raw_lines (doc : Doc) : list Line :=
  concat (map page_records (imap pair doc)).

(** The state of [get_all_text_lines] after the dicts [vs] are built. *)
Definition extend (st : list nat * list Line) (vs : list Line)
    : list nat * list Line :=
  (st.1 ++ seq (length st.2) (length vs), st.2 ++ vs).

(** A text that begins, or ends, with white space. *)
Definition head_space (s : string) : bool :=
  match s with
  | EmptyString => false
  | String c _ => Py.is_space c
  end.

Fixpoint last_space (s : string) : bool :=
  match s with
  | EmptyString => false
  | String c EmptyString => Py.is_space c
  | String _ s' => last_space s'
  end.

(** A text as [get_all_text_lines] keeps it: not empty, no white space at
    either end. *)
Definition trimmed (s : string) : Prop :=
  s ≠ "" ∧ head_space s = false ∧ last_space s = false.

(** The box [outer] covers the box [inner]. *)
Definition covers (outer inner : BBox) : Prop :=
  (bbox_0 outer ≤ bbox_0 inner)%Qc ∧ (bbox_1 outer ≤ bbox_1 inner)%Qc
  ∧ (bbox_2 inner ≤ bbox_2 outer)%Qc ∧ (bbox_3 inner ≤ bbox_3 outer)%Qc.

(** The file opens but cannot be read to its end. *)
Definition unreadable (fitz_open : string → string + Opened) (pdf_file : string) : bool :=
  match fitz_open pdf_file with
  | inr (Unreadable _ _) => true
  | _ => false
  end.

(** The found files in front of the first one that opens but cannot be
    read to its end. *)
Fixpoint dumped (fitz_open : string → string + Opened) (found : list string)
    : list string :=
  match found with
  | [] => []
  | pdf_file :: found' =>
      if unreadable fitz_open pdf_file then []
      else pdf_file :: dumped fitz_open found'
  end.

(** A file system with a good file, a file that does not open, an
    encrypted file and nothing else. *)
Definition sample_files (pdf_path : string) : string + Opened :=
  if bool_decide (pdf_path = "locked.pdf")
  then inr (Unreadable [] "document closed or encrypted")
  else if bool_decide (pdf_path = "broken.pdf") then inl "cannot open broken file"
  else inr (Readable [[mkBlock 0 (Some [mkPdfLine (Some [mkSpan "Notes" (qz 12)])
                                                  (bx 0 0 50 12)])]]).

(** The stem of the sample file names, which all end in ".pdf". *)
Definition sample_stem (pdf_file : string) : string :=
  String.substring 0 (String.length pdf_file - 4) pdf_file.

(** A scanned document: two pages of image blocks, one of them with
    lines that no text block holds. *)
Definition images_only : Doc :=
  [[mkBlock 1 None];
   [mkBlock 1 (Some [mkPdfLine (Some [mkSpan "caption" (qz 9)]) (bx 0 0 50 9)]);
    mkBlock 2 None]].

(** A report of two pages: a title, body text and two headings. *)
Definition report : Doc :=
  [[mkBlock 0 (Some [mkPdfLine (Some [mkSpan "Annual " (qz 24); mkSpan "Report" (qz 24)])
                               (bx 0 0 200 24);
                     mkPdfLine (Some [mkSpan "Summary" (qz 16)]) (bx 0 40 200 56);
                     mkPdfLine (Some [mkSpan "first body line" (qz 11)]) (bx 0 70 200 81);
                     mkPdfLine (Some [mkSpan "second body line" (qz 11)]) (bx 0 83 200 94)])];
   [mkBlock 1 None;
    mkBlock 0 (Some [mkPdfLine (Some [mkSpan "Details" (qz 14)]) (bx 0 0 200 14);
                     mkPdfLine (Some [mkSpan "third body line" (qz 11)]) (bx 0 30 200 41);
                     mkPdfLine (Some [mkSpan "fourth body line" (qz 11)]) (bx 0 43 200 54)])]].

(** * Properties *)

(** ** Numbers, strings and boxes *)

Lemma append_assoc (a b c : string) : (a +:+ b) +:+ c = a +:+ (b +:+ c).
Proof.
  induction a as [|ch a IH]; [done|].
  change (String ch ((a +:+ b) +:+ c) = String ch (a +:+ (b +:+ c))).
  by rewrite IH.
Qed.

Lemma append_nil_r (a : string) : a +:+ "" = a.
Proof.
  induction a as [|ch a IH]; [done|].
  change (String ch (a +:+ "") = String ch a). by rewrite IH.
Qed.

Lemma py_min_qmin (a b : Qc) : Py.min a b = Spec.qmin a b.
Proof.
  unfold Py.min, Spec.qmin. case_bool_decide as Hlt; case_decide as Hle; try done.
  - by apply Qclt_not_le in Hlt.
  - by apply Qcnot_le_lt in Hle.
Qed.

Lemma py_max_qmax (a b : Qc) : Py.max a b = Spec.qmax a b.
Proof.
  unfold Py.max, Spec.qmax. case_bool_decide as Hlt; case_decide as Hle; try done.
  - by apply Qclt_le_weak in Hlt.
  - apply Qcle_lt_or_eq in Hle as [?|?]; done.
Qed.

(** ** The float subtraction *)

(** The exponent that [Py.exponent] finds is not too large. *)
Lemma exponent_lower (n d : Z) :
  (0 < n)%Z → (0 < d)%Z → Py.pow2_le (Py.exponent n d) n d = true.
Proof.
  intros Hn Hd. unfold Py.exponent.
  destruct (Py.pow2_le (Z.log2 n - Z.log2 d) n d) eqn:Htest; [done|].
  destruct (Z.log2_spec n Hn) as [Hn1 _].
  destruct (Z.log2_spec d Hd) as [_ Hd2].
  pose proof (Z.log2_nonneg n) as Ha. pose proof (Z.log2_nonneg d) as Hb.
  set (a := Z.log2 n) in *. set (b := Z.log2 d) in *.
  unfold Py.pow2_le. apply Z.leb_le.
  destruct (decide (0 ≤ a - b - 1)%Z) as [Hpos|Hneg].
  - rewrite Z.max_l, Z.max_r by lia. rewrite Z.mul_1_r.
    assert (2 ^ a = 2 ^ Z.succ b * 2 ^ (a - b - 1))%Z as Hsplit.
    { rewrite <- Z.pow_add_r by lia. f_equal. lia. }
    assert (0 < 2 ^ (a - b - 1))%Z by (apply Z.pow_pos_nonneg; lia).
    nia.
  - rewrite Z.max_r, Z.max_l by lia. rewrite Z.mul_1_r.
    assert (2 ^ Z.succ b = 2 ^ a * 2 ^ (- (a - b - 1)))%Z as Hsplit.
    { rewrite <- Z.pow_add_r by lia. f_equal. lia. }
    assert (0 < 2 ^ (- (a - b - 1)))%Z by (apply Z.pow_pos_nonneg; lia).
    nia.
Qed.

(** The exponent that [Py.exponent] finds is not too small. *)
Lemma exponent_upper (n d : Z) :
  (0 < n)%Z → (0 < d)%Z → Py.pow2_le (Py.exponent n d + 1) n d = false.
Proof.
  intros Hn Hd. unfold Py.exponent.
  destruct (Py.pow2_le (Z.log2 n - Z.log2 d) n d) eqn:Htest;
    [|by replace (Z.log2 n - Z.log2 d - 1 + 1)%Z with (Z.log2 n - Z.log2 d)%Z by lia].
  destruct (Z.log2_spec n Hn) as [_ Hn2].
  destruct (Z.log2_spec d Hd) as [Hd1 _].
  pose proof (Z.log2_nonneg n) as Ha. pose proof (Z.log2_nonneg d) as Hb.
  set (a := Z.log2 n) in *. set (b := Z.log2 d) in *.
  unfold Py.pow2_le. apply Z.leb_gt.
  destruct (decide (0 ≤ a - b + 1)%Z) as [Hpos|Hneg].
  - rewrite (Z.max_l (a - b + 1)), (Z.max_r (- (a - b + 1))) by lia. rewrite Z.mul_1_r.
    assert (2 ^ Z.succ a = 2 ^ b * 2 ^ (a - b + 1))%Z as Hsplit.
    { rewrite <- Z.pow_add_r by lia. f_equal. lia. }
    assert (0 < 2 ^ (a - b + 1))%Z by (apply Z.pow_pos_nonneg; lia).
    nia.
  - rewrite (Z.max_r (a - b + 1)), (Z.max_l (- (a - b + 1))) by lia. rewrite Z.mul_1_r.
    assert (2 ^ b = 2 ^ Z.succ a * 2 ^ (- (a - b + 1)))%Z as Hsplit.
    { rewrite <- Z.pow_add_r by lia. f_equal. lia. }
    assert (0 < 2 ^ (- (a - b + 1)))%Z by (apply Z.pow_pos_nonneg; lia).
    nia.
Qed.

(** [Py.round_half_even n d] is an integer nearest to [n/d], and the even
    one when there are two. *)
Lemma round_half_even_nearest (n d : Z) :
  (0 < d)%Z →
  (Z.abs (2 * (Py.round_half_even n d * d - n)) ≤ d)%Z
  ∧ (Z.abs (2 * (Py.round_half_even n d * d - n)) = d →
     Z.even (Py.round_half_even n d) = true).
Proof.
  intros Hd. unfold Py.round_half_even.
  pose proof (Z.div_mod n d ltac:(lia)) as Hdiv.
  pose proof (Z.mod_pos_bound n d Hd) as Hmod.
  set (k := (n / d)%Z) in *. set (r := (n mod d)%Z) in *.
  destruct (2 * r <? d)%Z eqn:H1; [apply Z.ltb_lt in H1; split; lia|].
  apply Z.ltb_ge in H1.
  destruct (d <? 2 * r)%Z eqn:H2; [apply Z.ltb_lt in H2; split; lia|].
  apply Z.ltb_ge in H2.
  destruct (Z.even k) eqn:Hk; [split; [lia|done]|].
  split; [lia|]. intros _.
  by rewrite Z.add_1_r, Z.even_succ, <-Z.negb_even, Hk.
Qed.

Lemma exponent_nonneg (n d : Z) :
  (0 < d)%Z → (d ≤ n)%Z → (0 ≤ Py.exponent n d)%Z.
Proof.
  intros Hd Hdn. unfold Py.exponent.
  pose proof (Z.log2_le_mono d n Hdn) as Hlog.
  destruct (Py.pow2_le (Z.log2 n - Z.log2 d) n d) eqn:Htest; [lia|].
  destruct (decide (Z.log2 n = Z.log2 d)) as [Heq|]; [|lia].
  exfalso. unfold Py.pow2_le in Htest. apply Z.leb_gt in Htest.
  rewrite Heq, Z.sub_diag in Htest.
  change (n * 1 < d * 1)%Z in Htest. lia.
Qed.

Lemma round_half_even_floor (n d : Z) : (n / d ≤ Py.round_half_even n d)%Z.
Proof. unfold Py.round_half_even. repeat case_match; lia. Qed.

(** Rounding does not take a number from 1 on below 1. *)
Lemma round_pos_ge_1 (n d : Z) (v : Qc) :
  (0 < d)%Z → (d ≤ n)%Z → Py.round_pos n d = Some v → (1 ≤ v)%Qc.
Proof.
  intros Hd Hdn. unfold Py.round_pos.
  pose proof (exponent_nonneg n d Hd Hdn) as He.
  pose proof (exponent_lower n d ltac:(lia) Hd) as Hlow.
  set (e := Py.exponent n d) in *.
  rewrite (Z.max_l (e - 52)) by lia.
  set (m := Py.round_half_even _ _).
  destruct (_ <=? _)%Z; [done|]. intros [= <-].
  unfold Py.pow2_le in Hlow. apply Z.leb_le in Hlow.
  rewrite Z.max_l, Z.max_r, Z.mul_1_r in Hlow by lia.
  assert (0 < 2 ^ Z.max (e - 52) 0)%Z as Hp1 by (apply Z.pow_pos_nonneg; lia).
  assert (0 < 2 ^ Z.max (- (e - 52)) 0)%Z as Hp2 by (apply Z.pow_pos_nonneg; lia).
  assert (2 ^ 52 ≤ m)%Z as Hm.
  { etrans; [|apply round_half_even_floor].
    apply Z.div_le_lower_bound; [lia|].
    destruct (decide (0 ≤ e - 52)%Z).
    - rewrite (Z.max_r (- (e - 52))), (Z.max_l (e - 52)), Z.mul_1_r by lia.
      rewrite <- Z.mul_assoc, <- Z.pow_add_r by lia.
      replace (e - 52 + 52)%Z with e by lia. done.
    - rewrite (Z.max_l (- (e - 52))), (Z.max_r (e - 52)), Z.mul_1_r by lia.
      assert (2 ^ 52 = 2 ^ e * 2 ^ (- (e - 52)))%Z as ->.
      { rewrite <- Z.pow_add_r by lia. f_equal. lia. }
      rewrite (Z.max_l (- (e - 52))) in Hp2 by lia. nia. }
  unfold Qcle. cbn [this Q2Qc]. rewrite !Qred_correct. unfold Qle.
  cbn [Qnum Qden]. rewrite Z2Pos.id, !Z.mul_1_l by done.
  destruct (decide (0 ≤ e - 52)%Z).
  - rewrite (Z.max_r (- (e - 52))) by lia. change (2 ^ 0)%Z with 1%Z.
    assert (0 < 2 ^ 52)%Z by done. nia.
  - rewrite (Z.max_r (e - 52)) by lia. change (2 ^ 0)%Z with 1%Z.
    rewrite !Z.mul_1_r.
    etrans; [|exact Hm]. apply Z.pow_le_mono_r; lia.
Qed.

(** No difference is below a threshold of 0 or less. *)
Lemma abs_lt_positive (v : option Qc) (t : Qc) :
  Py.abs_lt v t = true → (0 < t)%Qc.
Proof.
  destruct v as [v|]; [|done]. simpl. intros H%bool_decide_eq_true.
  eapply Qcle_lt_trans; [apply Qcabs_nonneg|done].
Qed.

Lemma Qcabs_lt_1 (x : Qc) : (Qcabs x < 1)%Qc ↔ (Z.abs (Qnum x) < Zpos (Qden x))%Z.
Proof.
  unfold Qclt. simpl. destruct x as [[n d] ?]. unfold Qlt. simpl. lia.
Qed.

(** A float difference below 1 is the difference of two numbers that
    are less than 1 apart. *)
Lemma sub_abs_lt_1 (a b : Qc) :
  Py.abs_lt (Py.sub a b) 1 = true → (Qcabs (a - b) < 1)%Qc.
Proof.
  unfold Py.sub, Py.float. set (x := (a - b)%Qc). clearbody x.
  intros Hlt. apply Qcabs_lt_1.
  destruct (decide (Z.abs (Qnum x) < Z.pos (Qden x))%Z) as [|Hge]; [done|exfalso].
  destruct (Qnum x) as [|n|n] eqn:Hn; [done| |].
  - destruct (Py.round_pos _ _) as [v|] eqn:Hv; [|done].
    apply round_pos_ge_1 in Hv; [|lia..].
    simpl in Hlt. apply bool_decide_eq_true in Hlt.
    pose proof (Qcle_Qcabs v) as Hv2.
    apply (Qclt_not_le _ _ Hlt). by etrans.
  - destruct (Py.round_pos _ _) as [v|] eqn:Hv; [|done].
    apply round_pos_ge_1 in Hv; [|lia..].
    simpl in Hlt. apply bool_decide_eq_true in Hlt.
    rewrite Qcabs_opp in Hlt.
    pose proof (Qcle_Qcabs v) as Hv2.
    apply (Qclt_not_le _ _ Hlt). by etrans.
Qed.

Lemma bbox_union_spec (c n : BBox) : bbox_union c n = Spec.union c n.
Proof. unfold bbox_union, Spec.union. by rewrite !py_min_qmin, !py_max_qmax. Qed.

Lemma merge_test_true (t : Qc) (acc next : Line) :
  merge_test t acc next = true ↔ Spec.mergeable t acc next.
Proof.
  unfold merge_test, Spec.mergeable.
  rewrite !andb_true_iff, bool_decide_eq_true. tauto.
Qed.

Lemma merge_test_false (t : Qc) (acc next : Line) :
  merge_test t acc next = false ↔ ¬ Spec.mergeable t acc next.
Proof. rewrite <-merge_test_true. by destruct (merge_test t acc next). Qed.

Lemma merge_test_decide (t : Qc) (acc next : Line) :
  merge_test t acc next = bool_decide (Spec.mergeable t acc next).
Proof.
  destruct (merge_test t acc next) eqn:E; symmetry.
  - by apply bool_decide_eq_true, merge_test_true.
  - by apply bool_decide_eq_false, merge_test_false.
Qed.

(** ** The loop of merge_nearby_lines on distinct dicts *)

Lemma fuse_updates (cl nl : Line) :
  set_bbox (set_text cl (text cl +:+ (" " +:+ text nl)))
           (bbox_union (bbox cl) (bbox nl)) = Spec.fuse cl nl.
Proof.
  unfold set_bbox, set_text, Spec.fuse; simpl.
  by rewrite append_assoc, bbox_union_spec.
Qed.

Lemma Forall2_lookup_frame (h h2 : store) (refs : list loc) (vs : list Line) :
  Forall2 (λ (r : loc) v, h !! r = Some v) refs vs →
  (∀ r : loc, r ∈ refs → h2 !! r = h !! r) →
  Forall2 (λ (r : loc) v, h2 !! r = Some v) refs vs.
Proof.
  induction 1 as [|r v refs vs Hr _ IH]; intros Hsame; constructor.
  - rewrite Hsame; [done|]. by left.
  - apply IH. intros r' Hr'. apply Hsame. by right.
Qed.

(** When the references at hand are pairwise distinct, the loop computes
    [merge_from] on the values, leaves every other dict alone, and returns
    references taken from its input. *)
Lemma merge_loop_values (t : Qc) (rest : list loc) :
  ∀ (merged : list loc) (cur : loc) (h : store) (acc : Line) (vs : list Line),
    NoDup (cur :: rest) →
    h !! cur = Some acc →
    Forall2 (λ (r : loc) v, h !! r = Some v) rest vs →
    ∃ (out : list loc) (h' : store),
      merge_loop t rest merged cur h = Some (merged ++ out, h')
      ∧ Forall2 (λ (r : loc) v, h' !! r = Some v) out (merge_from t acc vs)
      ∧ out ⊆ cur :: rest
      ∧ length h' = length h
      ∧ ∀ r : loc, r ∉ cur :: rest → h' !! r = h !! r.
Proof.
  induction rest as [|next rest IH]; intros merged cur h acc vs Hnd Hcur Hvs.
  - apply Forall2_nil_inv_l in Hvs as ->. exists [cur], h. simpl.
    split_and!; [done| by constructor | set_solver | done | done].
  - apply Forall2_cons_inv_l in Hvs as (v & vs' & Hnext & Hvs' & ->).
    apply NoDup_cons in Hnd as [Hcur_nin Hnd].
    apply NoDup_cons in Hnd as [Hnext_nin Hnd].
    apply not_elem_of_cons in Hcur_nin as [Hne Hcur_nin].
    simpl. rewrite Hnext, Hcur. simpl.
    destruct (merge_test t acc v) eqn:Htest.
    + pose proof (lookup_lt_Some _ _ _ Hcur) as Hlt.
      destruct (IH merged cur (<[cur:=Spec.fuse acc v]> h) (Spec.fuse acc v) vs')
        as (out & h' & Hrun & Hout & Hsub & Hlen & Hframe).
      * by apply NoDup_cons.
      * by apply list_lookup_insert_eq.
      * apply (Forall2_lookup_frame h); [done|].
        intros r Hr. apply list_lookup_insert_ne. by intros ->.
      * exists out, h'. split_and!; [|done| set_solver | |].
        -- rewrite (list_lookup_insert_ne h cur next) by done. rewrite Hnext. simpl.
           rewrite list_lookup_insert_eq by done. simpl.
           by rewrite list_insert_insert_eq, fuse_updates.
        -- by rewrite Hlen, length_insert.
        -- intros r Hr. rewrite Hframe by set_solver.
           apply list_lookup_insert_ne. set_solver.
    + destruct (IH (merged ++ [cur]) next h v vs')
        as (out & h' & Hrun & Hout & Hsub & Hlen & Hframe); [by apply NoDup_cons|done|done|].
      exists (cur :: out), h'. split_and!.
      * rewrite Hrun. by rewrite <-app_assoc.
      * constructor; [|done]. rewrite Hframe; [done|]. set_solver.
      * set_solver.
      * done.
      * intros r Hr. apply Hframe. set_solver.
Qed.

Lemma merge_from_fold (t : Qc) (rest : list Line) :
  ∀ (out : list Line) (acc : Line),
    (foldl (Spec.step t) (out, acc) rest).1
      ++ [(foldl (Spec.step t) (out, acc) rest).2]
    = out ++ merge_from t acc rest.
Proof.
  induction rest as [|next rest IH]; intros out acc; [done|].
  simpl. unfold Spec.step at 2 4. simpl.
  rewrite merge_test_decide. case_decide as Hm.
  - rewrite bool_decide_eq_true_2 by done. apply IH.
  - rewrite bool_decide_eq_false_2 by done. rewrite IH. by rewrite <-app_assoc.
Qed.

Lemma merge_from_spec (t : Qc) (first : Line) (rest : list Line) :
  merge_from t first rest = Spec.merge t (first :: rest).
Proof. unfold Spec.merge. by rewrite merge_from_fold. Qed.

Lemma deref_Some (h : store) (refs : list loc) (vs : list Line) :
  deref h refs = Some vs ↔ Forall2 (λ (r : loc) v, h !! r = Some v) refs vs.
Proof. apply mapM_Some. Qed.

(** On pairwise distinct dicts, [merge_nearby_lines] returns dicts of its
    input that hold, in the end, the lines of the specified fold. *)
Lemma merge_nearby_lines_values (t : Qc) (refs : list loc) (h : store) (vs : list Line) :
  NoDup refs →
  deref h refs = Some vs →
  ∃ (out : list loc) (h' : store),
    merge_nearby_lines refs t h = Some (out, h')
    ∧ deref h' out = Some (Spec.merge t vs)
    ∧ out ⊆ refs
    ∧ length h' = length h
    ∧ ∀ r : loc, r ∉ refs → h' !! r = h !! r.
Proof.
  intros Hnd Hvs. apply deref_Some in Hvs.
  destruct Hvs as [|first v rest vs' Hfirst Hrest].
  - exists [], h. by split_and!.
  - destruct (merge_loop_values t rest [] first h v vs' Hnd Hfirst Hrest)
      as (out & h' & Hrun & Hout & Hsub & Hlen & Hframe).
    exists out, h'. split_and!; try done.
    rewrite <-merge_from_spec. by apply deref_Some.
Qed.

Lemma deref_seq (lines : list Line) :
  deref lines (seq 0 (length lines)) = Some lines.
Proof.
  apply deref_Some, Forall2_same_length_lookup_2.
  - by rewrite length_seq.
  - intros i r v Hr Hv. apply lookup_seq in Hr as [-> _]. done.
Qed.

Lemma merge_values_spec (t : Qc) (lines : list Line) :
  merge_values t lines = Some (Spec.merge t lines).
Proof.
  unfold merge_values.
  destruct (merge_nearby_lines_values t (seq 0 (length lines)) lines lines)
    as (out & h' & -> & Hout & _); [apply NoDup_seq | apply deref_seq|].
  done.
Qed.

(** ** Runs of merged lines *)

Lemma fuse_all_snoc (first : Line) (others : list Line) (next : Line) :
  Spec.fuse_all first (others ++ [next]) = Spec.fuse (Spec.fuse_all first others) next.
Proof. unfold Spec.fuse_all. by rewrite foldl_app. Qed.

Lemma fuse_all_font_size (first : Line) (others : list Line) :
  font_size (Spec.fuse_all first others) = font_size first.
Proof.
  induction others as [|c others IH] using rev_ind; [done|].
  by rewrite fuse_all_snoc.
Qed.

Lemma fuse_all_page_num (first : Line) (others : list Line) :
  page_num (Spec.fuse_all first others) = page_num first.
Proof.
  induction others as [|c others IH] using rev_ind; [done|].
  by rewrite fuse_all_snoc.
Qed.

Lemma merge_from_runs (t : Qc) (rest : list Line) :
  ∀ (first : Line) (others : list Line),
    Forall (Spec.close_to first) others →
    concat (runs_from t (Spec.fuse_all first others) (first :: others) rest)
      = (first :: others) ++ rest
    ∧ Forall2 Spec.run_of
        (runs_from t (Spec.fuse_all first others) (first :: others) rest)
        (merge_from t (Spec.fuse_all first others) rest).
Proof.
  induction rest as [|next rest IH]; intros first others Hclose.
  - simpl. split; [by rewrite !app_nil_r|].
    constructor; [|constructor]. by exists first, others.
  - simpl. destruct (merge_test t (Spec.fuse_all first others) next) eqn:Htest.
    + rewrite <-fuse_all_snoc.
      destruct (IH first (others ++ [next])) as [Hcat Hruns].
      * apply Forall_app; split; [done|]. constructor; [|constructor].
        apply merge_test_true in Htest as (Hp & _ & Hf).
        apply sub_abs_lt_1 in Hf.
        rewrite fuse_all_page_num in Hp. rewrite fuse_all_font_size in Hf.
        by split.
      * split; [|done]. simpl in *. rewrite Hcat. by rewrite <-app_assoc.
    + destruct (IH next []) as [Hcat Hruns]; [constructor|].
      simpl in *. split.
      * by rewrite Hcat.
      * constructor; [|done]. by exists first, others.
Qed.

(** The lines of the fold are, in order, the fusions of consecutive runs
    that make up the input. *)
Lemma merge_runs (t : Qc) (lines : list Line) :
  ∃ rs : list (list Line),
    concat rs = lines ∧ Forall2 Spec.run_of rs (Spec.merge t lines).
Proof.
  destruct lines as [|first rest].
  - exists []. split; [done|constructor].
  - exists (runs_from t first [first] rest). rewrite <-merge_from_spec.
    apply (merge_from_runs t rest first []). constructor.
Qed.

(** ** Texts *)

Lemma join_cons (sep x : string) (l : list string) :
  l ≠ [] → Py.join sep (x :: l) = x +:+ sep +:+ Py.join sep l.
Proof. by destruct l. Qed.

Lemma join_fuse (a b : string) (l : list string) :
  Py.join " " (((a +:+ " ") +:+ b) :: l) = Py.join " " (a :: b :: l).
Proof.
  destruct l as [|c l].
  - simpl. apply append_assoc.
  - rewrite !join_cons by done. by rewrite !append_assoc.
Qed.

Lemma merge_from_nonempty (t : Qc) (rest : list Line) (acc : Line) :
  merge_from t acc rest ≠ [].
Proof.
  revert acc. induction rest as [|next rest IH]; intros acc; [done|].
  simpl. destruct (merge_test t acc next); [apply IH|done].
Qed.

Lemma merge_from_text (t : Qc) (rest : list Line) :
  ∀ acc : Line,
    Py.join " " (map text (merge_from t acc rest))
    = Py.join " " (text acc :: map text rest).
Proof.
  induction rest as [|next rest IH]; intros acc; [done|].
  simpl merge_from. destruct (merge_test t acc next).
  - rewrite IH. simpl text. apply join_fuse.
  - change (map text (acc :: ?l)) with (text acc :: map text l).
    rewrite join_cons.
    + rewrite IH. by rewrite <-join_cons.
    + intros Hnil. apply fmap_nil_inv in Hnil. by apply merge_from_nonempty in Hnil.
Qed.

Lemma merge_from_length (t : Qc) (rest : list Line) :
  ∀ acc : Line, length (merge_from t acc rest) ≤ S (length rest).
Proof.
  induction rest as [|next rest IH]; intros acc; [done|].
  simpl. destruct (merge_test t acc next).
  - specialize (IH (Spec.fuse acc next)). lia.
  - specialize (IH next). simpl. lia.
Qed.

(** The words of [split] are non-empty, free of white space, and
    together they are the text without its white space. *)
Lemma space_free_append (a b : string) :
  Spec.space_free (a +:+ b) = Spec.space_free a && Spec.space_free b.
Proof.
  induction a as [|c a IH]; [done|].
  change (Spec.space_free (String c (a +:+ b))
          = Spec.space_free (String c a) && Spec.space_free b).
  simpl. rewrite IH. by rewrite andb_assoc.
Qed.

Lemma join_empty_cons (x : string) (l : list string) :
  Py.join "" (x :: l) = x +:+ Py.join "" l.
Proof. destruct l; simpl; [by rewrite append_nil_r|done]. Qed.

Lemma split_from_words (s : string) :
  ∀ word : string,
    Spec.space_free word = true →
    Forall (λ w, w ≠ "" ∧ Spec.space_free w = true) (Py.split_from word s)
    ∧ Py.join "" (Py.split_from word s) = word +:+ Spec.drop_spaces s.
Proof.
  induction s as [|c s IH]; intros word Hword; simpl.
  - case_bool_decide as Hw.
    + subst word. split; [constructor|done].
    + split; [by repeat constructor|]. simpl. by rewrite append_nil_r.
  - destruct (Py.is_space c) eqn:Hc.
    + destruct (IH "" eq_refl) as [IHa IHb]. case_bool_decide as Hw.
      * subst word. by split.
      * split; [by constructor|]. by rewrite join_empty_cons, IHb.
    + destruct (IH (word +:+ String c "")) as [IHa IHb].
      * rewrite space_free_append, Hword. simpl. by rewrite Hc.
      * split; [done|]. rewrite IHb. by rewrite append_assoc.
Qed.

Lemma split_words (s : string) :
  Forall (λ w, w ≠ "" ∧ Spec.space_free w = true) (Py.split s)
  ∧ Py.join "" (Py.split s) = Spec.drop_spaces s.
Proof. by apply (split_from_words s ""). Qed.

(** ** Lists on which nothing merges *)

Lemma merge_from_maximal (t : Qc) (vs : list Line) :
  ∀ acc : Line,
    Spec.maximal t (acc :: vs) = true → merge_from t acc vs = acc :: vs.
Proof.
  induction vs as [|v vs IH]; intros acc Hmax; [done|].
  simpl in Hmax. apply andb_true_iff in Hmax as [Hno Hmax].
  apply negb_true_iff in Hno. rewrite <-merge_test_decide in Hno.
  simpl. rewrite Hno. by rewrite IH.
Qed.

Lemma merge_maximal (t : Qc) (vs : list Line) :
  Spec.maximal t vs = true → Spec.merge t vs = vs.
Proof.
  destruct vs as [|acc vs]; [done|]. intros Hmax.
  rewrite <-merge_from_spec. by apply merge_from_maximal.
Qed.

Lemma merge_loop_maximal (t : Qc) (rest : list loc) :
  ∀ (merged : list loc) (cur : loc) (h : store) (acc : Line) (vs : list Line),
    h !! cur = Some acc →
    Forall2 (λ (r : loc) v, h !! r = Some v) rest vs →
    Spec.maximal t (acc :: vs) = true →
    merge_loop t rest merged cur h = Some (merged ++ cur :: rest, h).
Proof.
  induction rest as [|next rest IH]; intros merged cur h acc vs Hcur Hvs Hmax.
  - done.
  - apply Forall2_cons_inv_l in Hvs as (v & vs' & Hnext & Hvs' & ->).
    simpl in Hmax. apply andb_true_iff in Hmax as [Hno Hmax].
    apply negb_true_iff in Hno. rewrite <-merge_test_decide in Hno.
    simpl. rewrite Hnext, Hcur. simpl. rewrite Hno.
    rewrite (IH _ _ _ v vs') by done. by rewrite <-app_assoc.
Qed.

Lemma merge_nearby_lines_maximal (t : Qc) (refs : list loc) (h : store) (vs : list Line) :
  deref h refs = Some vs →
  Spec.maximal t vs = true →
  merge_nearby_lines refs t h = Some (refs, h).
Proof.
  intros Hvs Hmax. apply deref_Some in Hvs.
  destruct Hvs as [|first v rest vs' Hfirst Hrest]; [done|].
  simpl. by rewrite (merge_loop_maximal t rest [] first h v vs').
Qed.

(** ** Fields that the loop never writes *)

Lemma merge_loop_keeps (t : Qc) (rest : list loc) :
  ∀ (merged : list loc) (cur : loc) (h : store) (out : list loc) (h' : store),
    merge_loop t rest merged cur h = Some (out, h') →
    ∀ r : loc,
      font_size <$> h' !! r = font_size <$> h !! r
      ∧ page_num <$> h' !! r = page_num <$> h !! r.
Proof.
  induction rest as [|next rest IH]; intros merged cur h out h' Hrun r.
  - simpl in Hrun. by simplify_eq.
  - simpl in Hrun.
    destruct (h !! next) as [nl|] eqn:Hnext; [|done].
    destruct (h !! cur) as [cl|] eqn:Hcur; [|done]. simpl in Hrun.
    destruct (merge_test t cl nl).
    + destruct (_ !! next) as [nl1|] eqn:Hnext1 in Hrun; [|done]. simpl in Hrun.
      pose proof (lookup_lt_Some _ _ _ Hcur) as Hlt.
      rewrite list_lookup_insert_eq in Hrun by done. simpl in Hrun.
      rewrite list_insert_insert_eq in Hrun.
      destruct (IH _ _ _ _ _ Hrun r) as [-> ->].
      destruct (decide (cur = r)) as [->|Hne].
      * rewrite list_lookup_insert_eq by done. by rewrite Hcur.
      * by rewrite list_lookup_insert_ne.
    + by apply (IH _ _ _ _ _ Hrun).
Qed.

(** ** max with a key *)

Section max_from.
Context {A K : Type} (lt : K → K → bool) (key : A → K).
Lemma max_from_elem (cur : A) (l : list A) : Py.max_from lt key cur l ∈ cur :: l.
Proof.
  revert cur. induction l as [|x l IH]; intros cur; simpl; [by left|].
  destruct (lt (key cur) (key x)).
  - right. apply IH.
  - specialize (IH cur). set_solver.
Qed.

Hypothesis lt_irrefl : ∀ a, lt a a = false.
Hypothesis lt_trans : ∀ a b c, lt a b = true → lt b c = true → lt a c = true.
Hypothesis lt_cotrans : ∀ a b c, lt a c = true → lt a b = true ∨ lt b c = true.

(** No item has a larger key than the result. *)
Lemma max_from_upper (cur : A) (l : list A) (x : A) :
  x ∈ cur :: l → lt (key (Py.max_from lt key cur l)) (key x) = false.
Proof.
  revert cur x. induction l as [|y l IH]; intros cur x Hx; simpl.
  - apply list_elem_of_singleton in Hx as ->. apply lt_irrefl.
  - destruct (lt (key cur) (key y)) eqn:Hcy.
    + apply elem_of_cons in Hx as [->|Hx]; [|by apply IH].
      apply not_true_is_false. intros Hrc.
      pose proof (lt_trans _ _ _ Hrc Hcy) as Hry.
      rewrite IH in Hry; [done|by left].
    + apply elem_of_cons in Hx as [->|Hx].
      * by apply IH; left.
      * apply elem_of_cons in Hx as [->|Hx]; [|by apply IH; right].
        apply not_true_is_false. intros Hry.
        destruct (lt_cotrans _ (key cur) _ Hry) as [Hrc|Hcy']; [|congruence].
        rewrite IH in Hrc; [done|by left].
Qed.

(** The result is the first item with the largest key: every item
    before it has a smaller key.  [pre] and [mid] are the items read
    before and after [cur]. *)
Lemma max_from_first (l : list A) :
  ∀ (cur : A) (pre mid : list A),
    (∀ x, x ∈ pre → lt (key x) (key cur) = true) →
    (∀ x, x ∈ mid → lt (key cur) (key x) = false) →
    ∃ l1 l2,
      pre ++ cur :: mid ++ l = l1 ++ Py.max_from lt key cur l :: l2
      ∧ ∀ x, x ∈ l1 → lt (key x) (key (Py.max_from lt key cur l)) = true.
Proof.
  induction l as [|y l IH]; intros cur pre mid Hpre Hmid; simpl.
  - exists pre, mid. by rewrite app_nil_r.
  - destruct (lt (key cur) (key y)) eqn:Hcy.
    + destruct (IH y (pre ++ cur :: mid) []) as (l1 & l2 & Heq & Hl1).
      * intros x [Hx|Hx]%elem_of_app; [by eapply lt_trans; [apply Hpre|]|].
        apply elem_of_cons in Hx as [->|Hx]; [done|].
        destruct (lt_cotrans _ (key x) _ Hcy) as [Hcx|]; [|done].
        by rewrite Hmid in Hcx.
      * intros x Hx. by apply elem_of_nil in Hx.
      * exists l1, l2. split; [|done]. rewrite <-Heq. by rewrite <-app_assoc.
    + destruct (IH cur pre (mid ++ [y])) as (l1 & l2 & Heq & Hl1); [done| |].
      * intros x [Hx|Hx]%elem_of_app; [by apply Hmid|].
        by apply list_elem_of_singleton in Hx as ->.
      * exists l1, l2. split; [|done]. rewrite <-Heq. by rewrite <-app_assoc.
Qed.

End max_from.

Lemma Qclt_bool_irrefl (a : Qc) : bool_decide (a < a)%Qc = false.
Proof. apply bool_decide_eq_false. apply (irreflexivity Qclt). Qed.

Lemma Qclt_bool_trans (a b c : Qc) :
  bool_decide (a < b)%Qc = true → bool_decide (b < c)%Qc = true →
  bool_decide (a < c)%Qc = true.
Proof. rewrite !bool_decide_eq_true. apply Qclt_trans. Qed.

Lemma Qclt_bool_cotrans (a b c : Qc) :
  bool_decide (a < c)%Qc = true →
  bool_decide (a < b)%Qc = true ∨ bool_decide (b < c)%Qc = true.
Proof.
  rewrite !bool_decide_eq_true. intros Hac.
  destruct (Qclt_le_dec a b) as [?|Hba]; [by left|right].
  by eapply Qcle_lt_trans.
Qed.

Lemma ltb_trans (a b c : nat) : (a <? b) = true → (b <? c) = true → (a <? c) = true.
Proof. rewrite !Nat.ltb_lt. lia. Qed.

Lemma ltb_cotrans (a b c : nat) : (a <? c) = true → (a <? b) = true ∨ (b <? c) = true.
Proof. rewrite !Nat.ltb_lt. lia. Qed.

(** [max] over font sizes yields a largest one. *)
Lemma max_list_spec (cur : Qc) (l : list Qc) :
  Py.max_list cur l ∈ cur :: l
  ∧ ∀ x, x ∈ cur :: l → (x ≤ Py.max_list cur l)%Qc.
Proof.
  split.
  - unfold Py.max_list. apply max_from_elem.
  - intros x Hx. apply Qcnot_lt_le.
    pose proof (max_from_upper _ id Qclt_bool_irrefl Qclt_bool_trans
                  Qclt_bool_cotrans cur l x Hx) as Hup.
    by apply bool_decide_eq_false in Hup.
Qed.

(** ** Candidates *)

Lemma heading_candidates_filter (title_bboxes : list BBox) (baseline : Qc)
    (lines : list Line) :
  heading_candidates title_bboxes baseline lines
  = filter (λ line, (bbox line ∉ title_bboxes)
                    ∧ (baseline < font_size line)%Qc
                    ∧ length (Py.split (text line)) < 20) lines.
Proof.
  unfold heading_candidates.
  set (P := λ line : Line, _ ∧ _ ∧ _).
  enough (∀ acc, foldl (candidate_step title_bboxes baseline) acc lines
                 = acc ++ filter P lines) as H by apply (H []).
  induction lines as [|line lines IH]; intros acc; simpl.
  - by rewrite app_nil_r.
  - rewrite IH. unfold candidate_step, filter at 2; simpl.
    fold (filter P lines).
    case_bool_decide as Hbox.
    + rewrite decide_False; [done|]. unfold P. tauto.
    + destruct (bool_decide (baseline < font_size line)%Qc
                && (length (Py.split (text line)) <? 20)) eqn:Hc.
      * apply andb_true_iff in Hc as [Hf Hw].
        apply bool_decide_eq_true in Hf. apply Nat.ltb_lt in Hw.
        rewrite decide_True by done. by rewrite <-app_assoc.
      * rewrite decide_False; [done|]. intros (_ & Hf & Hw).
        apply andb_false_iff in Hc as [Hc|Hc].
        -- by apply bool_decide_eq_false in Hc.
        -- apply Nat.ltb_ge in Hc. lia.
Qed.

(** ** Counter and the most common value *)

Lemma occurrences_nil (x : Qc) : Spec.occurrences x [] = 0.
Proof. done. Qed.

Lemma occurrences_cons (x y : Qc) (l : list Qc) :
  Spec.occurrences x (y :: l)
  = (if decide (y = x) then 1 else 0) + Spec.occurrences x l.
Proof. unfold Spec.occurrences. rewrite filter_cons. by case_decide. Qed.

Lemma occurrences_app (x : Qc) (l1 l2 : list Qc) :
  Spec.occurrences x (l1 ++ l2) = Spec.occurrences x l1 + Spec.occurrences x l2.
Proof. unfold Spec.occurrences. by rewrite filter_app, length_app. Qed.

Lemma occurrences_pos (x : Qc) (l : list Qc) :
  x ∈ l ↔ 0 < Spec.occurrences x l.
Proof.
  induction l as [|y l IH].
  - rewrite occurrences_nil. split; [by intros ?%elem_of_nil|lia].
  - rewrite occurrences_cons, elem_of_cons, IH. case_decide; [|naive_solver lia].
    split; [lia|]. intros _. by left.
Qed.

Lemma first_occurrences_elem (x : Qc) (l : list Qc) :
  x ∈ first_occurrences l ↔ x ∈ l.
Proof.
  induction l as [|y l IH]; [done|]. simpl.
  rewrite !elem_of_cons, list_elem_of_filter, IH.
  destruct (decide (x = y)); naive_solver.
Qed.

Lemma first_occurrences_NoDup (l : list Qc) : NoDup (first_occurrences l).
Proof.
  induction l as [|y l IH]; simpl; [constructor|].
  apply NoDup_cons. split.
  - rewrite list_elem_of_filter. naive_solver.
  - by apply NoDup_filter.
Qed.

Lemma filter_all {A} (P : A → Prop) `{!∀ x, Decision (P x)} (l : list A) :
  (∀ x, x ∈ l → P x) → filter P l = l.
Proof.
  induction l as [|x l IH]; intros HP; [done|].
  rewrite filter_cons_True by (apply HP; by left).
  f_equal. apply IH. intros y Hy. apply HP. by right.
Qed.

Lemma first_occurrences_app (l1 l2 : list Qc) :
  first_occurrences (l1 ++ l2)
  = first_occurrences l1 ++ filter (λ y, y ∉ l1) (first_occurrences l2).
Proof.
  induction l1 as [|x l1 IH]; simpl.
  - symmetry. apply filter_all. intros y _. apply not_elem_of_nil.
  - f_equal. rewrite IH, filter_app. f_equal.
    rewrite list_filter_filter. apply list_filter_iff.
    intros y. rewrite not_elem_of_cons. tauto.
Qed.

Lemma counter_add_map (x : Qc) (ks : list Qc) (f : Qc → nat) :
  NoDup ks →
  Py.counter_add x (map (λ k, (k, f k)) ks)
  = if decide (x ∈ ks)
    then map (λ k, (k, if decide (k = x) then S (f k) else f k)) ks
    else map (λ k, (k, f k)) ks ++ [(x, 1)].
Proof.
  induction ks as [|k ks IH]; intros Hnd; simpl; [done|].
  - apply NoDup_cons in Hnd as [Hk Hnd]. case_bool_decide as Hkx.
    + subst k. rewrite decide_True by (by left). rewrite decide_True by done.
      f_equal. apply map_ext_in. intros k' Hk'%list_elem_of_In.
      rewrite decide_False; [done|]. by intros ->.
    + rewrite IH by done. rewrite (decide_False (P := k = x)) by done.
      destruct (decide (x ∈ ks)) as [Hin|Hnin].
      * rewrite decide_True by (by right). done.
      * rewrite decide_False; [done|]. rewrite not_elem_of_cons. naive_solver.
Qed.

Lemma Counter_spec (l : list Qc) :
  Py.Counter l = map (λ k, (k, Spec.occurrences k l)) (first_occurrences l).
Proof.
  induction l as [|x l IH] using rev_ind; [done|].
  unfold Py.Counter in *. rewrite foldl_app. simpl. rewrite IH.
  rewrite counter_add_map by apply first_occurrences_NoDup.
  rewrite first_occurrences_app. simpl.
  destruct (decide (x ∈ l)) as [Hin|Hnin].
  - rewrite decide_True by (by apply first_occurrences_elem).
    rewrite filter_cons_False by (by intros ?). rewrite filter_nil, app_nil_r.
    apply map_ext. intros k. f_equal.
    rewrite occurrences_app, occurrences_cons, occurrences_nil.
    repeat case_decide; subst; try done; lia.
  - rewrite decide_False by (by rewrite first_occurrences_elem).
    rewrite filter_cons_True by done. rewrite filter_nil.
    rewrite map_app. simpl. f_equal.
    + apply map_ext_in. intros k Hk%list_elem_of_In.
      rewrite first_occurrences_elem in Hk.
      f_equal. rewrite occurrences_app, occurrences_cons, occurrences_nil.
      rewrite decide_False; [lia|]. by intros ->.
    + do 2 f_equal. rewrite occurrences_app, occurrences_cons, occurrences_nil.
      rewrite decide_True by done.
      destruct (Spec.occurrences x l) eqn:E; [done|].
      exfalso. apply Hnin, occurrences_pos. lia.
Qed.

Lemma NoDup_split_unique {A} (x : A) (l1 l2 l1' l2' : list A) :
  NoDup (l1 ++ x :: l2) → l1 ++ x :: l2 = l1' ++ x :: l2' → l1 = l1'.
Proof.
  revert l1'. induction l1 as [|y l1 IH]; intros l1' Hnd Heq.
  - destruct l1' as [|y l1']; [done|]. simpl in *. simplify_eq.
    apply NoDup_cons in Hnd as [Hx _]. exfalso. apply Hx. set_solver.
  - destruct l1' as [|y' l1']; simpl in *; simplify_eq.
    + apply NoDup_cons in Hnd as [Hx _]. exfalso. apply Hx. set_solver.
    + f_equal. apply NoDup_cons in Hnd as [_ Hnd]. by apply IH.
Qed.

(** The most common value of a non-empty list is its mode, the first one
    met among the values of the largest count. *)
Lemma most_common_1_mode (x : Qc) (l : list Qc) :
  ∃ b n, Py.most_common_1 (Py.Counter (x :: l)) = [(b, n)]
         ∧ Spec.mode_of (x :: l) b.
Proof.
  rewrite Counter_spec.
  destruct (first_occurrences (x :: l)) as [|k ks] eqn:Hfo; [done|].
  set (item := λ k : Qc, (k, Spec.occurrences k (x :: l))).
  change (map _ (k :: ks)) with (item k :: map item ks). simpl.
  set (res := Py.max_from Nat.ltb snd (item k) (map item ks)).
  assert (res ∈ map item (k :: ks)) as Hres by apply max_from_elem.
  apply list_elem_of_fmap in Hres as (b & Hb & Hbin).
  exists b, (Spec.occurrences b (x :: l)). split; [by rewrite Hb|].
  split.
  - intros y. destruct (decide (y ∈ x :: l)) as [Hy|Hy].
    + assert (item y ∈ item k :: map item ks) as Hy'.
      { change (item y ∈ map item (k :: ks)). apply list_elem_of_fmap.
        exists y. split; [done|]. rewrite <-Hfo. by apply first_occurrences_elem. }
      pose proof (max_from_upper Nat.ltb snd Nat.ltb_irrefl ltb_trans ltb_cotrans
                    _ _ _ Hy') as Hup.
      fold res in Hup. rewrite Hb in Hup. simpl in Hup.
      apply Nat.ltb_ge in Hup. done.
    + rewrite occurrences_pos in Hy. lia.
  - destruct (max_from_first Nat.ltb snd ltb_trans ltb_cotrans (map item ks) (item k) [] [])
      as (c1 & c2 & Heq & Hc1); [by intros ? ?%elem_of_nil..|].
    fold res in Heq, Hc1. rewrite Hb in Heq, Hc1. simpl in Heq.
    assert (b ∈ x :: l) as Hbl.
    { apply first_occurrences_elem. by rewrite Hfo. }
    apply list_elem_of_split_l in Hbl as (l1 & l2 & Hl & Hbl1).
    exists l1, l2. split_and!; [done..|].
    assert (first_occurrences (x :: l) = map fst c1 ++ b :: map fst c2) as Hkeys.
    { rewrite Hfo. transitivity (map fst (map item (k :: ks))).
      - rewrite map_map. simpl. by rewrite map_id.
      - change (map item (k :: ks)) with (item k :: map item ks).
        rewrite Heq. by rewrite map_app. }
    assert (map fst c1 = first_occurrences l1) as Hpre.
    { apply (NoDup_split_unique b _ (map fst c2) _
               (filter (λ y, y ∉ l1) (filter (λ y, y ≠ b) (first_occurrences l2)))).
      - rewrite <-Hkeys. apply first_occurrences_NoDup.
      - rewrite <-Hkeys, Hl, first_occurrences_app. simpl.
        by rewrite filter_cons_True. }
    intros y Hy.
    assert (y ∈ map fst c1) as Hy1.
    { rewrite Hpre. by apply first_occurrences_elem. }
    apply list_elem_of_fmap in Hy1 as ([y' n] & -> & Hyn).
    specialize (Hc1 _ Hyn). simpl in Hc1. apply Nat.ltb_lt in Hc1.
    assert ((y', n) ∈ map item (k :: ks)) as Hitem.
    { change ((y', n) ∈ item k :: map item ks). rewrite Heq. set_solver. }
    apply list_elem_of_fmap in Hitem as (y'' & Hitem & _).
    unfold item in Hitem. injection Hitem as -> ->. done.
Qed.

Lemma baseline_size_mode (first : Line) (rest : list Line) :
  ∃ b, baseline_size (first :: rest) = Some b
       ∧ Spec.mode_of (map font_size (first :: rest)) b.
Proof.
  unfold baseline_size.
  change (map font_size (first :: rest)) with (font_size first :: map font_size rest).
  destruct (most_common_1_mode (font_size first) (map font_size rest))
    as (b & n & -> & Hmode).
  by exists b.
Qed.

(** ** The stable sort *)

Section sort.
Context {A : Type} (lt : A → A → bool).

Lemma insert_sorted_perm (x : A) (l : list A) : Py.insert_sorted lt x l ≡ₚ x :: l.
Proof.
  induction l as [|y l IH]; simpl; [done|].
  destruct (lt x y); [done|]. rewrite IH. apply Permutation_swap.
Qed.

Lemma sort_snoc (l : list A) (x : A) :
  Py.sort lt (l ++ [x]) = Py.insert_sorted lt x (Py.sort lt l).
Proof. unfold Py.sort. by rewrite foldl_app. Qed.

Lemma sort_perm (l : list A) : Py.sort lt l ≡ₚ l.
Proof.
  induction l as [|x l IH] using rev_ind; [done|].
  rewrite sort_snoc, insert_sorted_perm, IH.
  by rewrite (Permutation_app_comm l [x]).
Qed.

Hypothesis lt_irrefl : ∀ a, lt a a = false.
Hypothesis lt_trans : ∀ a b c, lt a b = true → lt b c = true → lt a c = true.
Hypothesis lt_cotrans : ∀ a b c, lt a c = true → lt a b = true ∨ lt b c = true.

(** No item of a sorted list is smaller than an item before it. *)
Lemma insert_sorted_sorted (x : A) (l : list A) :
  StronglySorted (λ a b, lt b a = false) l →
  StronglySorted (λ a b, lt b a = false) (Py.insert_sorted lt x l).
Proof.
  induction l as [|y l IH]; intros Hs; simpl.
  - repeat constructor.
  - apply StronglySorted_cons in Hs as [Hy Hs].
    destruct (lt x y) eqn:Hxy.
    + apply StronglySorted_cons. split.
      * constructor.
        -- apply not_true_is_false. intros Hyx.
           pose proof (lt_trans _ _ _ Hxy Hyx) as Hxx. by rewrite lt_irrefl in Hxx.
        -- eapply Forall_impl; [exact Hy|]. intros z Hzy. simpl in Hzy.
           apply not_true_is_false. intros Hzx.
           pose proof (lt_trans _ _ _ Hzx Hxy). congruence.
      * by apply StronglySorted_cons.
    + apply StronglySorted_cons. split; [|by apply IH].
      rewrite insert_sorted_perm. by constructor.
Qed.

Lemma sort_sorted (l : list A) :
  StronglySorted (λ a b, lt b a = false) (Py.sort lt l).
Proof.
  induction l as [|x l IH] using rev_ind; [constructor|].
  rewrite sort_snoc. by apply insert_sorted_sorted.
Qed.

Lemma insert_sorted_ties (a x : A) (l : list A) :
  StronglySorted (λ a b, lt b a = false) l →
  filter (Spec.ties lt a) (Py.insert_sorted lt x l)
  = filter (Spec.ties lt a) l ++ filter (Spec.ties lt a) [x].
Proof.
  induction l as [|y l IH]; intros Hs; simpl; [done|].
  apply StronglySorted_cons in Hs as [Hy Hs].
  destruct (lt x y) eqn:Hxy.
  - rewrite (filter_cons _ x). rewrite filter_singleton; [|exact l].
    case_decide as Hax; [|by rewrite app_nil_r].
    destruct Hax as [Hax Hxa].
    assert (filter (Spec.ties lt a) (y :: l) = []) as ->; [|done].
    assert (∀ z, z ∈ y :: l → lt x z = true) as Hxz.
    { intros z [->|Hz]%elem_of_cons; [done|].
      rewrite Forall_forall in Hy. specialize (Hy z Hz). simpl in Hy.
      destruct (lt_cotrans _ z _ Hxy); congruence. }
    induction (y :: l) as [|z zs IHz]; [done|].
    rewrite filter_cons_False.
    + apply IHz. intros z' Hz'. apply Hxz. by right.
    + intros [Haz _].
      destruct (lt_cotrans _ a _ (Hxz z ltac:(by left))); congruence.
  - rewrite !(filter_cons _ y), IH by done. by case_decide.
Qed.

(** The sort is stable: the items that tie with [a] keep their order. *)
Lemma sort_stable (a : A) (l : list A) :
  filter (Spec.ties lt a) (Py.sort lt l) = filter (Spec.ties lt a) l.
Proof.
  induction l as [|x l IH] using rev_ind; [done|].
  rewrite sort_snoc, insert_sorted_ties by apply sort_sorted.
  by rewrite IH, filter_app.
Qed.

End sort.

Lemma insert_sorted_map {A B} (f : A → B) (lt : A → A → bool) (lt' : B → B → bool)
    (x : A) (l : list A) :
  (∀ a b, lt' (f a) (f b) = lt a b) →
  Py.insert_sorted lt' (f x) (map f l) = map f (Py.insert_sorted lt x l).
Proof.
  intros Hlt. induction l as [|y l IH]; simpl; [done|].
  rewrite Hlt. destruct (lt x y); simpl; [done|]. by rewrite IH.
Qed.

(** Sorting commutes with a map that respects the order. *)
Lemma sort_map {A B} (f : A → B) (lt : A → A → bool) (lt' : B → B → bool)
    (l : list A) :
  (∀ a b, lt' (f a) (f b) = lt a b) →
  Py.sort lt' (map f l) = map f (Py.sort lt l).
Proof.
  intros Hlt. induction l as [|x l IH] using rev_ind; [done|].
  rewrite map_app. simpl. rewrite !sort_snoc, IH.
  by apply insert_sorted_map.
Qed.

(** ** The order on sort keys *)

Lemma tuple_lt_true (a b : Z * Qc) :
  Py.tuple_lt a b = true ↔ (a.1 < b.1)%Z ∨ (a.1 = b.1 ∧ (a.2 < b.2)%Qc).
Proof.
  unfold Py.tuple_lt. case_bool_decide as H1.
  - case_bool_decide as H2.
    + split; [done|]. intros [?|[_ Hlt]]; [lia|].
      rewrite H2 in Hlt. by apply (irreflexivity Qclt) in Hlt.
    + rewrite bool_decide_eq_true. split; [by right|].
      intros [?|[_ ?]]; [lia|done].
  - rewrite bool_decide_eq_true. split; [by left|]. intros [?|[? _]]; done.
Qed.

Lemma tuple_lt_false (a b : Z * Qc) :
  Py.tuple_lt a b = false ↔ Spec.key_le b a.
Proof.
  rewrite <-not_true_iff_false, tuple_lt_true. unfold Spec.key_le.
  destruct (Z.lt_trichotomy a.1 b.1) as [?|[?|?]];
    destruct (Qclt_le_dec a.2 b.2) as [Hlt|Hle].
  all: split; [intros Hn|intros Hle' Hn].
  all: try (exfalso; apply Hn; by auto).
  all: try (left; lia).
  all: try (right; by split).
  all: try (destruct Hle' as [?|[? Hle']]; destruct Hn as [?|[? Hn]]; try lia).
  all: try (by apply Qclt_not_le in Hn).
  all: by apply Qclt_not_le in Hlt.
Qed.

Lemma tuple_lt_irrefl (a : Z * Qc) : Py.tuple_lt a a = false.
Proof. apply tuple_lt_false. right. split; [done|]. apply Qcle_refl. Qed.

Lemma tuple_lt_trans (a b c : Z * Qc) :
  Py.tuple_lt a b = true → Py.tuple_lt b c = true → Py.tuple_lt a c = true.
Proof.
  rewrite !tuple_lt_true. intros [?|[? Hab]] [?|[? Hbc]]; try (left; lia).
  right. split; [congruence|]. by eapply Qclt_trans.
Qed.

Lemma tuple_lt_cotrans (a b c : Z * Qc) :
  Py.tuple_lt a c = true → Py.tuple_lt a b = true ∨ Py.tuple_lt b c = true.
Proof.
  rewrite !tuple_lt_true. intros [?|[? Hac]].
  - destruct (Z.lt_trichotomy a.1 b.1) as [?|[?|?]]; [by auto| |right; left; lia].
    right. left. lia.
  - destruct (Z.lt_trichotomy a.1 b.1) as [?|[?|?]]; [by auto| |right; left; lia].
    destruct (Qclt_le_dec a.2 b.2) as [Hlt|Hle]; [by auto|].
    right. right. split; [congruence|]. by eapply Qcle_lt_trans.
Qed.

Lemma tuple_lt_ties (a b : Z * Qc) :
  Py.tuple_lt a b = false ∧ Py.tuple_lt b a = false ↔ a = b.
Proof.
  split.
  - rewrite !tuple_lt_false. unfold Spec.key_le.
    intros [[?|[? H1]] [?|[? H2]]]; try lia.
    destruct a, b; simpl in *. f_equal; [done|]. by apply Qcle_antisym.
  - intros ->. split; apply tuple_lt_irrefl.
Qed.

Lemma heading_lt_irrefl (a : Heading) : heading_lt a a = false.
Proof. apply tuple_lt_irrefl. Qed.

Lemma heading_lt_trans (a b c : Heading) :
  heading_lt a b = true → heading_lt b c = true → heading_lt a c = true.
Proof. apply tuple_lt_trans. Qed.

Lemma heading_lt_cotrans (a b c : Heading) :
  heading_lt a c = true → heading_lt a b = true ∨ heading_lt b c = true.
Proof. apply tuple_lt_cotrans. Qed.

Lemma StronglySorted_lookup {A} (R : relation A) (l : list A) (i j : nat) (a b : A) :
  StronglySorted R l → l !! i = Some a → l !! j = Some b → i < j → R a b.
Proof.
  intros Hs. revert i j. induction Hs as [|x l Hs IH Hx]; intros i j Hi Hj Hij.
  - done.
  - destruct j as [|j]; [lia|]. simpl in Hj. destruct i as [|i].
    + simpl in Hi. simplify_eq. rewrite Forall_forall in Hx.
      apply Hx. by eapply list_elem_of_lookup_2.
    + simpl in Hi. apply (IH i j); [done..|lia].
Qed.

Lemma StronglySorted_reverse {A} (R : relation A) (l : list A) :
  StronglySorted R l → StronglySorted (flip R) (reverse l).
Proof.
  induction 1 as [|x l Hs IH Hx]; [constructor|].
  rewrite reverse_cons. apply StronglySorted_app_2; [|done|repeat constructor].
  intros a b Ha Hb. rewrite elem_of_reverse in Ha.
  apply list_elem_of_singleton in Hb as ->.
  rewrite Forall_forall in Hx. by apply Hx.
Qed.

Lemma StronglySorted_NoDup {A} (R : relation A) (l : list A) :
  StronglySorted R l → NoDup l → StronglySorted (λ a b, R a b ∧ a ≠ b) l.
Proof.
  induction 1 as [|x l Hs IH Hx]; intros Hnd; [constructor|].
  apply NoDup_cons in Hnd as [Hx' Hnd]. constructor; [by apply IH|].
  rewrite Forall_forall in Hx |- *. intros y Hy. split; [by apply Hx|].
  by intros ->.
Qed.

Lemma StronglySorted_impl {A} (R S : relation A) (l : list A) :
  StronglySorted R l → (∀ a b, R a b → S a b) → StronglySorted S l.
Proof.
  intros Hs HRS. induction Hs as [|x l Hs IH Hx]; constructor; [done|].
  eapply Forall_impl; [exact Hx|]. intros y. apply HRS.
Qed.

(** ** Heading tiers *)

Lemma heading_font_sizes_elem (candidates : list Line) (x : Qc) :
  x ∈ heading_font_sizes candidates ↔ x ∈ map font_size candidates.
Proof.
  unfold heading_font_sizes, Py.sorted_reverse.
  rewrite elem_of_reverse, sort_perm, elem_of_reverse.
  by rewrite elem_of_elements, elem_of_list_to_set.
Qed.

(** The tiers are in strictly descending order, whatever the order in
    which the set hands out its elements. *)
Lemma heading_font_sizes_sorted (candidates : list Line) :
  StronglySorted (λ a b, (b < a)%Qc) (heading_font_sizes candidates).
Proof.
  unfold heading_font_sizes, Py.sorted_reverse.
  set (els := elements _).
  apply (StronglySorted_reverse (λ a b, (a < b)%Qc)).
  apply (StronglySorted_impl (λ a b, bool_decide (b < a)%Qc = false ∧ a ≠ b)).
  - apply StronglySorted_NoDup.
    + apply sort_sorted; [apply Qclt_bool_irrefl | apply Qclt_bool_trans].
    + rewrite sort_perm, reverse_Permutation. apply NoDup_elements.
  - intros a b [Hle Hne]. apply bool_decide_eq_false in Hle.
    apply Qcnot_lt_le in Hle. apply Qcle_lt_or_eq in Hle as [?|?]; done.
Qed.

Lemma level_name_format (i : nat) :
  i < 4 → "H" +:+ pretty (i + 1) = Spec.level_name i.
Proof.
  intros Hi. do 4 (destruct i as [|i]; [by vm_compute|]). lia.
Qed.

Lemma foldl_insert_lookup (f : nat → string) (l : list (nat * Qc)) :
  ∀ m0 : gmap Qc string,
    NoDup (l.*2) →
    (∀ e, e ∈ l → foldl (λ m (e : nat * Qc), <[e.2 := f e.1]> m) m0 l !! e.2
                  = Some (f e.1))
    ∧ (∀ s, s ∉ l.*2 → foldl (λ m (e : nat * Qc), <[e.2 := f e.1]> m) m0 l !! s
                       = m0 !! s).
Proof.
  induction l as [|e0 l IH]; intros m0 Hnd; simpl.
  - split; [by intros e ?%elem_of_nil|done].
  - rewrite fmap_cons in Hnd. apply NoDup_cons in Hnd as [He0 Hnd].
    destruct (IH (<[e0.2 := f e0.1]> m0) Hnd) as [IHa IHb]. split.
    + intros e [->|He]%elem_of_cons; [|by apply IHa].
      rewrite IHb by done. apply lookup_insert_eq.
    + intros s Hs. apply not_elem_of_cons in Hs as [Hne Hs].
      rewrite IHb by done. by apply lookup_insert_ne.
Qed.

Lemma imap_pair_snd {A} (l : list A) : (imap pair l).*2 = l.
Proof.
  apply list_eq. intros i.
  rewrite list_lookup_fmap, list_lookup_imap. by destruct (l !! i).
Qed.

Lemma size_to_level_lookup (sizes : list Qc) (s : Qc) (lv : string) :
  NoDup sizes →
  size_to_level sizes !! s = Some lv
  ↔ ∃ i, i < 4 ∧ sizes !! i = Some s ∧ lv = Spec.level_name i.
Proof.
  intros Hnd. unfold size_to_level.
  assert (NoDup (imap pair (take 4 sizes)).*2) as Hnd'.
  { rewrite imap_pair_snd. by eapply sublist_NoDup; [|apply sublist_take]. }
  destruct (foldl_insert_lookup (λ i : nat, "H" +:+ pretty (i + 1))
              (imap pair (take 4 sizes)) ∅ Hnd') as [Ha Hb].
  cbv beta in Ha, Hb.
  assert (∀ i, i < 4 → sizes !! i = Some s →
               foldl (λ (m : gmap Qc string) (e : nat * Qc),
                        <[e.2 := "H" +:+ pretty (e.1 + 1)]> m)
                 ∅ (imap pair (take 4 sizes)) !! s = Some (Spec.level_name i)) as Hc.
  { intros i Hlt Hi. rewrite <-level_name_format by done. apply (Ha (i, s)).
    apply (elem_of_lookup_imap_2 pair _ _ i). by rewrite lookup_take_lt. }
  split.
  - intros Hlv. destruct (decide (s ∈ take 4 sizes)) as [Hin|Hnin].
    + apply elem_of_take in Hin as (i & Hi & Hlt). exists i.
      split_and!; [done..|]. rewrite (Hc i) in Hlv by done. by simplify_eq.
    + rewrite Hb in Hlv by (by rewrite imap_pair_snd). by rewrite lookup_empty in Hlv.
  - intros (i & Hlt & Hi & ->). by apply Hc.
Qed.

Lemma classify_with (levels : gmap Qc string) (candidates : list Line) :
  foldl (heading_step levels) [] candidates
  = map (to_heading levels)
        (filter (λ c, is_Some (levels !! font_size c)) candidates).
Proof.
  enough (∀ acc, foldl (heading_step levels) acc candidates
                 = acc ++ map (to_heading levels)
                     (filter (λ c, is_Some (levels !! font_size c)) candidates))
    as H by apply (H []).
  induction candidates as [|c cs IH]; intros acc; simpl.
  - by rewrite app_nil_r.
  - rewrite IH, filter_cons. unfold heading_step.
    destruct (levels !! font_size c) as [lv|] eqn:Hlv.
    + rewrite decide_True by done. simpl. rewrite <-app_assoc. simpl.
      unfold to_heading at 2, level_of. by rewrite Hlv.
    + rewrite decide_False; [done|]. by intros [? ?].
Qed.

(** * The line reconciler *)

(** C1: on any sequence of lines and any threshold, [merge_nearby_lines]
    returns the result of the single left-to-right fold [Spec.merge]: the
    accumulator starts as the first line; the next line is merged into it
    iff it is on the same page, its top edge is less than the threshold
    away from the bottom edge of the accumulator (in absolute value) and
    the font sizes differ by less than 1, both differences being the
    float differences that the program computes; merging appends a space and the
    text, takes the union of the boxes and keeps the font size; otherwise
    the accumulator is flushed and the next line becomes the accumulator,
    which is flushed at the end.  This holds for lines given as dicts of
    their own, and so for any pairwise distinct dicts of a store.  The
    default threshold is 5. *)
Theorem merge_nearby_lines_is_fold (t : Qc) (lines : list Line) :
  merge_values t lines = Some (Spec.merge t lines)
  ∧ (∀ (refs : list loc) (h : store),
       NoDup refs → deref h refs = Some lines →
       ∃ (out : list loc) (h' : store),
         merge_nearby_lines refs t h = Some (out, h')
         ∧ deref h' out = Some (Spec.merge t lines)
         ∧ out ⊆ refs)
  ∧ default_threshold = Qc_of_Z 5.
Proof.
  split_and!; [apply merge_values_spec| |done].
  intros refs h Hnd Hvs.
  destruct (merge_nearby_lines_values t refs h lines Hnd Hvs)
    as (out & h' & Hrun & Hout & Hsub & _).
  by exists out, h'.
Qed.

(** Scenarios B and C: a gap of 2 merges, a gap of 8 does not. *)
Example merge_fragments :
  merge_values default_threshold fragments
  = Some [mkLine "a b" (qz 10) 0 (bx 0 100 100 120);
          mkLine "c" (qz 10) 0 (bx 0 128 100 140)].
Proof. by vm_compute. Qed.

(** The gap is a float difference.  Between the floats nearest to 0.1 and
    to 5.1 it is 5.0, which is not below the threshold 5, although the
    two numbers are less than 5 apart: the lines stay apart. *)
Example merge_rounded_gap :
  let bottom := qf 3602879701896397 36028797018963968 in
  let top := qf 2871044762448691 562949953421312 in
  this <$> Py.sub top bottom = Some (5 # 1)
  ∧ (Qcabs (top - bottom) < qz 5)%Qc
  ∧ merge_values default_threshold
      [mkLine "a" (qz 10) 0 (qz 0, qz 0, qz 10, bottom);
       mkLine "b" (qz 10) 0 (qz 0, top, qz 10, qz 20)]
    = Some [mkLine "a" (qz 10) 0 (qz 0, qz 0, qz 10, bottom);
            mkLine "b" (qz 10) 0 (qz 0, top, qz 10, qz 20)].
Proof. cbv zeta. split_and!; by vm_compute. Qed.

(** A bottom edge of 2^-100 is lost in the difference with a top edge of
    5: the gap is 5.0 again. *)
Example merge_absorbed_gap :
  merge_values default_threshold
    [mkLine "a" (qz 10) 0 (qz 0, qz 0, qz 10, qf 1 (2 ^ 100));
     mkLine "b" (qz 10) 0 (qz 0, qz 5, qz 10, qz 20)]
  = Some [mkLine "a" (qz 10) 0 (qz 0, qz 0, qz 10, qf 1 (2 ^ 100));
          mkLine "b" (qz 10) 0 (qz 0, qz 5, qz 10, qz 20)].
Proof. by vm_compute. Qed.

(** Float differences that Python prints as 0.19999999999999998 and as
    inf, and the difference of the two smallest positive floats. *)
Example float_differences :
  this <$> Py.sub (qf 5404319552844595 18014398509481984)
                  (qf 3602879701896397 36028797018963968)
    = Some (7205759403792793 # 36028797018963968)
  ∧ Py.sub (qz (2 ^ 1023)) (qz (- 2 ^ 1023)) = None
  ∧ this <$> Py.sub (qf 2 (2 ^ 1074)) (qf 1 (2 ^ 1074)) = Some (1 # 2 ^ 1074).
Proof. split_and!; by vm_compute. Qed.

(** The same dict passed twice is updated through both references: the
    result differs from that on three dicts of their own. *)
Example merge_aliased :
  merge_nearby_lines [0; 1; 0] default_threshold
    [mkLine "a" (qz 10) 0 (bx 0 0 10 10); mkLine "b" (qz 10) 0 (bx 0 10 10 20)]
  = Some ([0; 0],
          [mkLine "a b" (qz 10) 0 (bx 0 0 10 20); mkLine "b" (qz 10) 0 (bx 0 10 10 20)]).
Proof. by vm_compute. Qed.

(** C7: merging keeps the order of the lines and stays within a page: the
    output lines are the fusions of consecutive non-empty runs that make
    up the input, and all lines of a run are on the page of the output
    line; no line yields no line, and one line yields itself. *)
Theorem merge_keeps_order_and_pages (t : Qc) (lines : list Line) :
  ∃ (out : list Line) (rs : list (list Line)),
    merge_values t lines = Some out
    ∧ concat rs = lines
    ∧ Forall2 (λ r o, ∃ first others,
                 r = first :: others ∧ o = Spec.fuse_all first others
                 ∧ ∀ c, c ∈ r → page_num c = page_num o) rs out
    ∧ merge_values t [] = Some []
    ∧ ∀ x, merge_values t [x] = Some [x].
Proof.
  destruct (merge_runs t lines) as (rs & Hcat & Hruns).
  exists (Spec.merge t lines), rs. split_and!; [apply merge_values_spec|done| |done|done].
  eapply Forall2_impl; [exact Hruns|].
  intros r o (first & others & -> & -> & Hclose).
  exists first, others. split_and!; [done..|].
  intros c Hc. rewrite fuse_all_page_num.
  apply elem_of_cons in Hc as [->|Hc]; [done|].
  rewrite Forall_forall in Hclose. by apply Hclose.
Qed.

(** C8: when the dicts that a merge returned hold lines of which no two
    neighbours satisfy the merge predicate, merging them again with the
    same threshold returns the same dicts and changes none; merging
    copies of these lines returns the same lines. *)
Theorem merge_idempotent_on_maximal (t : Qc) (refs : list loc) (h : store)
    (out : list loc) (h' : store) (vs : list Line) :
  merge_nearby_lines refs t h = Some (out, h') →
  deref h' out = Some vs →
  Spec.maximal t vs = true →
  merge_nearby_lines out t h' = Some (out, h')
  ∧ merge_values t vs = Some vs.
Proof.
  intros _ Hvs Hmax. split.
  - by eapply merge_nearby_lines_maximal.
  - rewrite merge_values_spec. by rewrite merge_maximal.
Qed.

Lemma merge_idempotent_on_maximal_witness :
  merge_nearby_lines [0; 2] default_threshold fragments_merged
  = Some ([0; 2], fragments_merged)
  ∧ merge_values default_threshold
      [mkLine "a b" (qz 10) 0 (bx 0 100 100 120);
       mkLine "c" (qz 10) 0 (bx 0 128 100 140)]
    = Some [mkLine "a b" (qz 10) 0 (bx 0 100 100 120);
            mkLine "c" (qz 10) 0 (bx 0 128 100 140)].
Proof.
  apply (merge_idempotent_on_maximal default_threshold [0; 1; 2] fragments
           [0; 2] fragments_merged
           [mkLine "a b" (qz 10) 0 (bx 0 100 100 120);
            mkLine "c" (qz 10) 0 (bx 0 128 100 140)]).
  - by vm_compute.
  - by vm_compute.
  - by vm_compute.
Defined.

Lemma Qcabs_diag (x : Qc) : (Qcabs (x - x) < 1)%Qc.
Proof.
  replace (x - x)%Qc with (Q2Qc 0) by ring.
  by rewrite Qcabs_pos.
Qed.

Lemma Qcabs_within_two (a b f : Qc) :
  (Qcabs (a - f) < 1)%Qc → (Qcabs (b - f) < 1)%Qc → (Qcabs (a - b) < 2)%Qc.
Proof.
  intros Ha Hb. replace (a - b)%Qc with ((a - f) + (f - b))%Qc by ring.
  eapply Qcle_lt_trans; [apply Qcabs_triangle|].
  rewrite (Qcabs_Qcminus f b).
  eapply Qclt_trans.
  - apply Qcplus_lt_mono_r. exact Ha.
  - apply Qcplus_lt_mono_l. exact Hb.
Qed.

Lemma close_to_run (first : Line) (others : list Line) (c : Line) :
  Forall (Spec.close_to first) others → c ∈ first :: others →
  Spec.close_to first c.
Proof.
  intros Hclose [->|Hc]%elem_of_cons.
  - split; [done|apply Qcabs_diag].
  - rewrite Forall_forall in Hclose. by apply Hclose.
Qed.

(** C9, amended: in every line that a merge produces, all constituents are
    on one page; the font size is that of the first constituent, and no
    run of [merge_nearby_lines] changes the font size of any dict; every
    constituent has a font size less than 1 away from that of the first
    one, so that two constituents are less than 2 apart. *)
Theorem merged_constituents (t : Qc) (lines : list Line) :
  ∃ (out : list Line) (rs : list (list Line)),
    merge_values t lines = Some out
    ∧ concat rs = lines
    ∧ Forall2 (λ r o, ∃ first others,
                 r = first :: others ∧ o = Spec.fuse_all first others
                 ∧ font_size o = font_size first
                 ∧ (∀ c, c ∈ r →
                      page_num c = page_num first
                      ∧ (Qcabs (font_size c - font_size first) < 1)%Qc)
                 ∧ (∀ c c', c ∈ r → c' ∈ r →
                      (Qcabs (font_size c - font_size c') < 2)%Qc)) rs out
    ∧ ∀ (refs : list loc) (h : store) (out' : list loc) (h' : store) (r : loc),
        merge_nearby_lines refs t h = Some (out', h') →
        font_size <$> h' !! r = font_size <$> h !! r.
Proof.
  destruct (merge_runs t lines) as (rs & Hcat & Hruns).
  exists (Spec.merge t lines), rs. split_and!; [apply merge_values_spec|done| |].
  - eapply Forall2_impl; [exact Hruns|].
    intros r o (first & others & -> & -> & Hclose).
    exists first, others. split_and!; [done|done|apply fuse_all_font_size| |].
    + intros c Hc. by apply (close_to_run first others).
    + intros c c' Hc Hc'.
      destruct (close_to_run first others c Hclose Hc) as [_ H1].
      destruct (close_to_run first others c' Hclose Hc') as [_ H2].
      by eapply Qcabs_within_two.
  - intros refs h out' h' r Hrun. destruct refs as [|first rest].
    + simpl in Hrun. by simplify_eq.
    + by apply (merge_loop_keeps t rest [] first h out' h' Hrun r).
Qed.

(** The three stacked lines merge into one line with threshold 1, although
    the font sizes of the second and the third are 1.5 apart: neither
    below 1 nor below the threshold. *)
Lemma merged_sizes_not_within_one :
  merge_values (qz 1) stacked = Some [Spec.fuse_all stacked_a [stacked_b; stacked_c]]
  ∧ ¬ (Qcabs (font_size stacked_b - font_size stacked_c) < 1)%Qc
  ∧ ¬ (Qcabs (font_size stacked_b - font_size stacked_c) < qz 1)%Qc.
Proof. split_and!; by vm_compute. Qed.

(** C10: merging loses no text and keeps its order: the texts of the
    output joined by single spaces are the texts of the input joined by
    single spaces; the output has at most as many lines as the input, and
    at least one line when the input has one. *)
Theorem merge_keeps_text (t : Qc) (lines : list Line) :
  ∃ out : list Line,
    merge_values t lines = Some out
    ∧ Py.join " " (map text out) = Py.join " " (map text lines)
    ∧ length out ≤ length lines
    ∧ (lines ≠ [] → out ≠ []).
Proof.
  exists (Spec.merge t lines). split; [apply merge_values_spec|].
  destruct lines as [|first rest]; [done|].
  rewrite <-merge_from_spec. split_and!.
  - apply merge_from_text.
  - apply merge_from_length.
  - intros _. apply merge_from_nonempty.
Qed.

(** * The outline inferencer *)

Lemma infer_cons (first : Line) (rest : list Line) :
  ∃ baseline,
    baseline_size (first :: rest) = Some baseline
    ∧ Spec.mode_of (map font_size (first :: rest)) baseline
    ∧ infer (first :: rest)
      = Some (mkDocumentStructure (title_extraction (first :: rest)).1
                (build_outline
                   (heading_candidates (title_extraction (first :: rest)).2
                      baseline (first :: rest)))).
Proof.
  destruct (baseline_size_mode first rest) as (b & Hb & Hmode).
  exists b. split_and!; [done..|].
  unfold infer. destruct (title_extraction (first :: rest)) as [ttl boxes].
  by rewrite Hb.
Qed.

(** C2: when the first page has lines, the title is the space-joined text
    of those first-page lines whose font size is the largest font size of
    the first page, in their order, and their boxes are reserved; a line
    of any page whose box is one of the reserved boxes is no heading
    candidate; when the first page has no line, the title is empty and
    no box is reserved. *)
Theorem title_from_first_page (lines : list Line) :
  let first_page := filter (λ l, page_num l = 0%Z) lines in
  (first_page = [] → title_extraction lines = ("", []))
  ∧ (first_page ≠ [] →
       ∃ m : Qc,
         m ∈ map font_size first_page
         ∧ (∀ l, l ∈ first_page → (font_size l ≤ m)%Qc)
         ∧ title_extraction lines
           = (Py.join " " (map text (filter (λ l, font_size l = m) first_page)),
              map bbox (filter (λ l, font_size l = m) first_page)))
  ∧ (∀ (baseline : Qc) (l : Line),
       l ∈ lines → bbox l ∈ (title_extraction lines).2 →
       l ∉ heading_candidates (title_extraction lines).2 baseline lines)
  ∧ (lines ≠ [] →
       ∃ baseline,
         baseline_size lines = Some baseline
         ∧ infer lines
           = Some (mkDocumentStructure (title_extraction lines).1
                     (build_outline
                        (heading_candidates (title_extraction lines).2
                           baseline lines)))).
Proof.
  intros first_page. split_and!.
  - intros Hnone. unfold title_extraction. fold first_page. by rewrite Hnone.
  - intros Hsome. unfold title_extraction. fold first_page.
    destruct first_page as [|first rest] eqn:Hfp; [done|].
    destruct (max_list_spec (font_size first) (map font_size rest)) as [Hin Hmax].
    exists (Py.max_list (font_size first) (map font_size rest)).
    split_and!; [done| |done].
    intros l Hl. apply Hmax.
    change (font_size l ∈ map font_size (first :: rest)).
    apply list_elem_of_fmap. by exists l.
  - intros baseline l _ Hbox. rewrite heading_candidates_filter.
    rewrite list_elem_of_filter. tauto.
  - intros Hne. destruct lines as [|first rest]; [done|].
    destruct (infer_cons first rest) as (b & Hb & _ & Hinfer). by exists b.
Qed.

(** Scenario A: the line in font 24 is the title and no heading. *)
Example report_title :
  infer [mkLine "Report Title" (qz 24) 0 (bx 0 0 100 24);
         mkLine "body one" (qz 12) 0 (bx 0 40 100 52);
         mkLine "body two" (qz 12) 0 (bx 0 60 100 72);
         mkLine "body three" (qz 12) 0 (bx 0 80 100 92)]
  = Some (mkDocumentStructure "Report Title" []).
Proof. by vm_compute. Qed.

(** Scenario E: a line in font 16 with 25 words is no candidate. *)
Example long_line_excluded :
  heading_candidates [] (qz 12)
    [mkLine "w w w w w w w w w w w w w w w w w w w w w w w w w" (qz 16) 1 (bx 0 0 9 9);
     mkLine "nineteen  words w w w w w w w w w w w w w w w w w" (qz 16) 1 (bx 0 9 9 18)]
  = [mkLine "nineteen  words w w w w w w w w w w w w w w w w w" (qz 16) 1 (bx 0 9 9 18)].
Proof. by vm_compute. Qed.

(** C3: for a non-empty sequence of lines, the baseline is the most
    frequent font size of all lines, the first one met among the most
    frequent ones, and the heading candidates are exactly the lines, in
    their order, whose box is not reserved, whose font size is above the
    baseline and whose text has fewer than 20 words. *)
Theorem candidates_above_baseline (first : Line) (rest : list Line) :
  ∃ baseline : Qc,
    baseline_size (first :: rest) = Some baseline
    ∧ Spec.mode_of (map font_size (first :: rest)) baseline
    ∧ (∀ reserved : list BBox,
         heading_candidates reserved baseline (first :: rest)
         = filter (λ line, (bbox line ∉ reserved)
                           ∧ (baseline < font_size line)%Qc
                           ∧ length (Py.split (text line)) < 20)
                  (first :: rest))
    ∧ infer (first :: rest)
      = Some (mkDocumentStructure (title_extraction (first :: rest)).1
                (build_outline
                   (heading_candidates (title_extraction (first :: rest)).2
                      baseline (first :: rest)))).
Proof.
  destruct (infer_cons first rest) as (b & Hb & Hmode & Hinfer).
  exists b. split_and!; [done..| |done].
  intros reserved. apply heading_candidates_filter.
Qed.

Lemma StronglySorted_irrefl_NoDup {A} (R : relation A) (l : list A) :
  (∀ a, ¬ R a a) → StronglySorted R l → NoDup l.
Proof.
  intros Hirr. induction 1 as [|x l Hs IH Hx]; [constructor|].
  constructor; [|done]. intros Hin. rewrite Forall_forall in Hx.
  by apply (Hirr x), Hx.
Qed.

Lemma heading_font_sizes_NoDup (candidates : list Line) :
  NoDup (heading_font_sizes candidates).
Proof.
  apply (StronglySorted_irrefl_NoDup (λ a b, (b < a)%Qc)).
  - intros a. apply (irreflexivity Qclt).
  - apply heading_font_sizes_sorted.
Qed.

Lemma level_known (candidates : list Line) (c : Line) :
  is_Some (size_to_level (heading_font_sizes candidates) !! font_size c)
  ↔ font_size c ∈ take 4 (heading_font_sizes candidates).
Proof.
  rewrite elem_of_take. split.
  - intros [lv Hlv].
    apply size_to_level_lookup in Hlv as (i & Hi & Hs & _);
      [|apply heading_font_sizes_NoDup].
    by exists i.
  - intros (i & Hs & Hi). exists (Spec.level_name i).
    apply size_to_level_lookup; [apply heading_font_sizes_NoDup|].
    by exists i.
Qed.

Lemma classify_spec (candidates : list Line) :
  classify candidates
  = map (to_heading (size_to_level (heading_font_sizes candidates)))
        (filter (λ c, font_size c ∈ take 4 (heading_font_sizes candidates))
                candidates).
Proof.
  unfold classify. rewrite classify_with. f_equal.
  apply list_filter_iff. intros c. apply level_known.
Qed.

Lemma emit_to_heading (levels : gmap Qc string) (c : Line) :
  emit (to_heading levels c) = Spec.entry (level_of levels) c.
Proof. done. Qed.

Lemma build_outline_sorted (candidates : list Line) :
  build_outline candidates = map emit (sort_headings (classify candidates)).
Proof. by destruct candidates. Qed.

Lemma largest_size_first (candidates : list Line) (c : Line) :
  c ∈ candidates →
  (∀ c', c' ∈ candidates → (font_size c' ≤ font_size c)%Qc) →
  heading_font_sizes candidates !! 0 = Some (font_size c).
Proof.
  intros Hc Hmax.
  assert (font_size c ∈ heading_font_sizes candidates) as Hin.
  { apply heading_font_sizes_elem, list_elem_of_fmap. by exists c. }
  apply list_elem_of_lookup in Hin as [i Hi].
  destruct i as [|i]; [done|].
  destruct (heading_font_sizes candidates !! 0) as [s0|] eqn:H0.
  - exfalso.
    pose proof (StronglySorted_lookup _ _ 0 (S i) _ _
                  (heading_font_sizes_sorted candidates) H0 Hi ltac:(lia)) as Hlt.
    simpl in Hlt.
    assert (s0 ∈ map font_size candidates) as Hs0.
    { apply heading_font_sizes_elem. by eapply list_elem_of_lookup_2. }
    apply list_elem_of_fmap in Hs0 as (c' & -> & Hc').
    by apply Qclt_not_le in Hlt; apply Hlt, Hmax.
  - apply lookup_ge_None in H0. apply lookup_lt_Some in Hi. lia.
Qed.

(** C4: the distinct font sizes of the candidates are taken in strictly
    descending order; the sizes of rank 0 to 3 get the levels H1 to H4
    and no other size gets a level; the headings are the candidates of
    these four tiers, each with the level of its tier, and the outline
    holds these and nothing else, so candidates of a fifth or lower tier
    are dropped; the largest candidate font size has level H1, and every
    level of the outline is one of H1, H2, H3, H4. *)
Theorem levels_by_rank (candidates : list Line) :
  let sizes := heading_font_sizes candidates in
  let levels := size_to_level sizes in
  (∀ x, x ∈ sizes ↔ x ∈ map font_size candidates)
  ∧ StronglySorted (λ a b, (b < a)%Qc) sizes
  ∧ (∀ s lv, levels !! s = Some lv
             ↔ ∃ i, i < 4 ∧ sizes !! i = Some s ∧ lv = Spec.level_name i)
  ∧ classify candidates
    = map (to_heading levels) (filter (λ c, font_size c ∈ take 4 sizes) candidates)
  ∧ build_outline candidates
    ≡ₚ map (Spec.entry (level_of levels))
           (filter (λ c, font_size c ∈ take 4 sizes) candidates)
  ∧ (∀ c, c ∈ candidates →
          (∀ c', c' ∈ candidates → (font_size c' ≤ font_size c)%Qc) →
          levels !! font_size c = Some "H1")
  ∧ (∀ e, e ∈ build_outline candidates → level e ∈ ["H1"; "H2"; "H3"; "H4"])
  ∧ (∀ c i, sizes !! i = Some (font_size c) → 4 ≤ i →
            levels !! font_size c = None
            ∧ c ∉ filter (λ c, font_size c ∈ take 4 sizes) candidates).
Proof.
  intros sizes levels.
  assert (∀ s lv, levels !! s = Some lv
                  ↔ ∃ i, i < 4 ∧ sizes !! i = Some s ∧ lv = Spec.level_name i)
    as Hlevels.
  { intros s lv. apply size_to_level_lookup, heading_font_sizes_NoDup. }
  split_and!.
  - apply heading_font_sizes_elem.
  - apply heading_font_sizes_sorted.
  - exact Hlevels.
  - apply classify_spec.
  - rewrite build_outline_sorted. unfold sort_headings. rewrite sort_perm.
    rewrite classify_spec, map_map. done.
  - intros c Hc Hmax. apply Hlevels. exists 0.
    split_and!; [lia| |done]. by apply largest_size_first.
  - intros e He. rewrite build_outline_sorted in He.
    apply list_elem_of_fmap in He as (h & -> & Hh).
    unfold sort_headings in Hh. rewrite sort_perm, classify_spec in Hh.
    apply list_elem_of_fmap in Hh as (c & -> & Hc).
    apply list_elem_of_filter in Hc as [Hc _].
    apply level_known in Hc as [lv Hlv]. simpl. unfold level_of.
    fold sizes levels in Hlv. fold sizes levels. rewrite Hlv. simpl.
    apply Hlevels in Hlv as (i & Hi & _ & ->).
    do 4 (destruct i as [|i]; [set_solver|]). lia.
  - intros c i Hi Hge.
    assert (levels !! font_size c = None) as Hnone.
    { destruct (levels !! font_size c) as [lv|] eqn:Hlv; [|done].
      apply Hlevels in Hlv as (j & Hj & Hs & _).
      pose proof (NoDup_lookup _ _ _ _ (heading_font_sizes_NoDup candidates) Hi Hs).
      lia. }
    split; [done|]. rewrite list_elem_of_filter. intros [Hin _].
    apply level_known in Hin as [lv Hlv]. fold sizes levels in Hlv. congruence.
Qed.

(** The cap: of six tiers, the two smallest are absent from the outline. *)
Example six_tiers_outline :
  infer six_tiers
  = Some (mkDocumentStructure "Title"
            [mkOutlineEntry "H1" "nineteen" 2;
             mkOutlineEntry "H2" "eighteen" 2;
             mkOutlineEntry "H3" "sixteen" 2;
             mkOutlineEntry "H4" "fifteen" 2]).
Proof. by vm_compute. Qed.

Lemma heading_lt_to_heading (levels : gmap Qc string) (a b : Line) :
  heading_lt (to_heading levels a) (to_heading levels b) = Spec.reading_lt a b.
Proof.
  unfold heading_lt, Spec.reading_lt, sort_key, Spec.reading_key, Py.tuple_lt. simpl.
  destruct (decide (page_num a = page_num b)) as [Heq|Hne].
  - rewrite (bool_decide_eq_true_2 (page_num a = page_num b)) by done.
    by rewrite (bool_decide_eq_true_2 (_ + 1 = _ + 1)%Z) by lia.
  - rewrite (bool_decide_eq_false_2 (page_num a = page_num b)) by done.
    rewrite (bool_decide_eq_false_2 (_ + 1 = _ + 1)%Z) by lia.
    apply bool_decide_ext. lia.
Qed.

Lemma heading_ties (a b : Heading) :
  heading_lt a b = false ∧ heading_lt b a = false ↔ sort_key b = sort_key a.
Proof. unfold heading_lt. rewrite tuple_lt_ties. naive_solver. Qed.

Lemma sort_headings_stable (k : Z * Qc) (headings : list Heading) :
  filter (λ h, sort_key h = k) (sort_headings headings)
  = filter (λ h, sort_key h = k) headings.
Proof.
  destruct (filter (λ h, sort_key h = k) headings) as [|h0 hs] eqn:Hk.
  - destruct (filter _ (sort_headings headings)) as [|h hs] eqn:Hs; [done|].
    assert (h ∈ filter (λ h, sort_key h = k) (sort_headings headings)) as Hh
      by (rewrite Hs; by left).
    apply list_elem_of_filter in Hh as [Hkey Hh].
    unfold sort_headings in Hh. rewrite sort_perm in Hh.
    assert (h ∈ filter (λ h, sort_key h = k) headings) as Hin
      by (by apply list_elem_of_filter).
    rewrite Hk in Hin. by apply elem_of_nil in Hin.
  - rewrite <-Hk.
    assert (sort_key h0 = k) as Hh0.
    { assert (h0 ∈ filter (λ h, sort_key h = k) headings) as Hin
        by (rewrite Hk; by left).
      by apply list_elem_of_filter in Hin as [? _]. }
    rewrite !(list_filter_iff (λ h, sort_key h = k) (Spec.ties heading_lt h0))
      by (intros h; unfold Spec.ties; rewrite heading_ties; by subst k).
    apply sort_stable;
      [apply heading_lt_irrefl | apply heading_lt_trans | apply heading_lt_cotrans].
Qed.

(** C5: the headings are put into the order of their keys (page, top
    edge) by a stable sort: the sorted list is a rearrangement of the
    headings in which no heading has a smaller key than one before it and
    the headings of equal key keep their order; of two headings of one
    page, the one with the smaller top edge comes first; the outline is
    the sorted list without the boxes, and it is the list obtained by
    sorting the kept candidates on the 0-based page index and then giving
    each entry the page number plus one. *)
Theorem outline_in_reading_order (candidates : list Line) :
  let levels := size_to_level (heading_font_sizes candidates) in
  let headings := classify candidates in
  let sorted := sort_headings headings in
  sorted ≡ₚ headings
  ∧ StronglySorted (λ a b, Spec.key_le (sort_key a) (sort_key b)) sorted
  ∧ (∀ k, filter (λ h, sort_key h = k) sorted = filter (λ h, sort_key h = k) headings)
  ∧ (∀ i j a b,
       sorted !! i = Some a → sorted !! j = Some b →
       h_page a = h_page b → (bbox_1 (h_bbox a) < bbox_1 (h_bbox b))%Qc →
       i < j)
  ∧ build_outline candidates = map emit sorted
  ∧ build_outline candidates
    = map (Spec.entry (level_of levels))
          (Py.sort Spec.reading_lt
             (filter (λ c, is_Some (levels !! font_size c)) candidates)).
Proof.
  intros levels headings sorted.
  assert (StronglySorted (λ a b, Spec.key_le (sort_key a) (sort_key b)) sorted)
    as Hsorted.
  { apply (StronglySorted_impl (λ a b, heading_lt b a = false)).
    - apply sort_sorted; [apply heading_lt_irrefl | apply heading_lt_trans].
    - intros a b Hba. by apply tuple_lt_false in Hba. }
  split_and!.
  - apply sort_perm.
  - exact Hsorted.
  - intros k. apply sort_headings_stable.
  - intros i j a b Hi Hj Hpage Hlt.
    destruct (decide (i < j)) as [|Hge]; [done|]. exfalso.
    destruct (decide (i = j)) as [->|Hne].
    + rewrite Hi in Hj. simplify_eq. by apply (irreflexivity Qclt) in Hlt.
    + pose proof (StronglySorted_lookup _ _ j i b a Hsorted Hj Hi ltac:(lia))
        as [Hp|[_ Hle]]; simpl in *; [lia|].
      by apply Qclt_not_le in Hlt.
  - apply build_outline_sorted.
  - rewrite build_outline_sorted. unfold sort_headings, classify.
    rewrite classify_with. fold levels.
    rewrite (sort_map (to_heading levels) Spec.reading_lt heading_lt)
      by apply heading_lt_to_heading.
    by rewrite map_map.
Qed.

(** * Sentinel and empty results *)

Lemma foldl_bind_inv {S X} (step : S → X → option S) (I : S → Prop) (l : list X) :
  (∀ s x, I s → ∃ s', step s x = Some s' ∧ I s') →
  ∀ s, I s →
    ∃ s', foldl (λ acc x, s ← acc; step s x) (Some s) l = Some s' ∧ I s'.
Proof.
  intros Hstep. induction l as [|x l IH]; intros s Hs; simpl.
  - by exists s.
  - destruct (Hstep s x Hs) as (s1 & -> & Hs1). by apply IH.
Qed.

Lemma text_line_step_distinct (page_num : Z) (st : list loc * store) (line : PdfLine) :
  distinct_dicts st →
  ∃ st', text_line_step page_num st line = Some st' ∧ distinct_dicts st'.
Proof.
  intros [Hnd Hlt]. unfold text_line_step.
  destruct (default [] (spans line)) as [|sp sps]; [by exists st|].
  case_bool_decide; [by exists st|].
  change (map span_size (sp :: sps)) with (span_size sp :: map span_size sps).
  destruct (most_common_1_mode (span_size sp) (map span_size sps))
    as (b & n & -> & _).
  simpl. eexists. split; [done|]. split; simpl.
  - apply NoDup_app. split_and!; [done| |apply NoDup_singleton].
    intros r Hr ->%list_elem_of_singleton.
    rewrite Forall_forall in Hlt. specialize (Hlt _ Hr). lia.
  - rewrite length_app. simpl. apply Forall_app. split.
    + eapply Forall_impl; [exact Hlt|]. intros r Hr. simpl in Hr. lia.
    + constructor; [lia|constructor].
Qed.

Lemma get_all_text_lines_distinct (doc : Doc) :
  ∃ st, get_all_text_lines doc [] = Some st ∧ distinct_dicts st.
Proof.
  unfold get_all_text_lines. apply foldl_bind_inv.
  - intros st [n pg] Hst. unfold page_step. simpl.
    apply foldl_bind_inv; [|done].
    intros st' block Hst'. unfold block_step.
    case_bool_decide; [|by exists st'].
    apply foldl_bind_inv; [|done].
    intros st'' line. apply text_line_step_distinct.
  - split; simpl; constructor.
Qed.

Lemma distinct_dicts_deref (refs : list loc) (h : store) :
  distinct_dicts (refs, h) → ∃ vs, deref h refs = Some vs.
Proof.
  intros [_ Hlt]. simpl in Hlt. induction refs as [|r refs IH].
  - by exists [].
  - apply Forall_cons in Hlt as [Hr Hlt]. destruct (IH Hlt) as (vs & Hvs).
    apply lookup_lt_is_Some in Hr as [v Hv]. exists (v :: vs).
    apply deref_Some. constructor; [done|]. by apply deref_Some.
Qed.

Lemma infer_total (lines : list Line) : ∃ d, infer lines = Some d.
Proof.
  destruct lines as [|first rest]; [by eexists|].
  destruct (infer_cons first rest) as (b & _ & _ & ->). by eexists.
Qed.

Lemma extract_document_structure_opened (fitz_open : string → string + Opened)
    (pdf_path : string) (doc : Doc) :
  fitz_open pdf_path = inr doc →
  ∃ (raw_lines : list loc) (h : store) (vs : list Line),
    get_all_text_lines doc [] = Some (raw_lines, h)
    ∧ deref h raw_lines = Some vs
    ∧ extract_document_structure fitz_open pdf_path
      = infer (Spec.merge default_threshold vs).
Proof.
  intros Hopen. unfold extract_document_structure. rewrite Hopen.
  destruct (get_all_text_lines_distinct doc) as ([raw h] & -> & Hst).
  destruct (distinct_dicts_deref raw h Hst) as (vs & Hvs).
  destruct (merge_nearby_lines_values default_threshold raw h vs)
    as (out & h' & Hrun & Hout & _); [apply Hst|done|].
  exists raw, h, vs. split_and!; [done..|].
  simpl. rewrite Hrun. simpl. rewrite Hout. done.
Qed.

Example small_doc_lines :
  get_all_text_lines small_doc []
  = Some ([0; 1],
          [mkLine "Introduction" (qz 18) 0 (bx 0 0 100 18);
           mkLine "plain Text here" (qz 12) 0 (bx 0 40 100 52)]).
Proof. by vm_compute. Qed.

Example small_doc_structure :
  extract_document_structure (λ _, inr small_doc) "a.pdf"
  = Some (mkDocumentStructure "Introduction" []).
Proof. by vm_compute. Qed.

Example broken_file :
  extract_document_structure (λ _, inl "cannot open broken file") "b.pdf"
  = Some (mkDocumentStructure "Error: cannot open broken file" []).
Proof. by vm_compute. Qed.

(** The title and the outline of a document that opens and is read to
    its end, from the lists and stores of the run. *)
Lemma extract_document_structure_run (fitz_open : string → string + Opened)
    (pdf_path : string) (doc : Doc) (raw lines : list loc) (h1 h2 : store)
    (merged : list Line) :
  fitz_open pdf_path = inr doc →
  get_all_text_lines doc [] = Some (raw, h1) →
  merge_nearby_lines raw default_threshold h1 = Some (lines, h2) →
  deref h2 lines = Some merged →
  extract_document_structure fitz_open pdf_path = infer merged.
Proof.
  intros Hopen Hraw Hmerge Hderef. unfold extract_document_structure.
  rewrite Hopen, Hraw. simpl. rewrite Hmerge. simpl. by rewrite Hderef.
Qed.

(** Reading a document that cannot be read to its end raises. *)
Lemma get_all_text_lines_raises (read : Doc) (e : string) (h : store) :
  get_all_text_lines (Unreadable read e) h = None.
Proof. unfold get_all_text_lines. by destruct (read_pages read h). Qed.

(** The exception is caught by nothing in [extract_document_structure]. *)
Lemma extract_document_structure_raises (fitz_open : string → string + Opened)
    (pdf_path : string) (read : Doc) (e : string) :
  fitz_open pdf_path = inr (Unreadable read e) →
  extract_document_structure fitz_open pdf_path = None.
Proof.
  intros Hopen. unfold extract_document_structure.
  by rewrite Hopen, get_all_text_lines_raises.
Qed.

(** C6, amended: when [fitz.open] fails, the result is the sentinel with
    the title "Error: " followed by the description and an empty outline,
    and it is returned, not raised; when the document opens and its pages
    hold no extractable line, the result has the empty title and the empty
    outline; when the merged lines of the document hold no heading
    candidate, the result has the title extracted from them and the empty
    outline; these three results are returned values.  When the document
    opens but cannot be read to its end, the exception of the engine is
    raised by [extract_document_structure]: there is no sentinel. *)
Theorem sentinel_and_empty_results (fitz_open : string → string + Opened)
    (pdf_path : string) :
  (∀ e, fitz_open pdf_path = inl e →
        extract_document_structure fitz_open pdf_path
        = Some (mkDocumentStructure ("Error: " +:+ e) []))
  ∧ (∀ (doc : Doc) h, fitz_open pdf_path = inr doc →
        get_all_text_lines doc [] = Some ([], h) →
        extract_document_structure fitz_open pdf_path
        = Some (mkDocumentStructure "" []))
  ∧ (∀ (doc : Doc) (raw lines : list loc) (h1 h2 : store)
       (merged : list Line) (baseline : Qc),
        fitz_open pdf_path = inr doc →
        get_all_text_lines doc [] = Some (raw, h1) →
        merge_nearby_lines raw default_threshold h1 = Some (lines, h2) →
        deref h2 lines = Some merged →
        merged ≠ [] →
        baseline_size merged = Some baseline →
        heading_candidates (title_extraction merged).2 baseline merged = [] →
        extract_document_structure fitz_open pdf_path
        = Some (mkDocumentStructure (title_extraction merged).1 []))
  ∧ (∀ (read : Doc) (e : string),
        fitz_open pdf_path = inr (Unreadable read e) →
        extract_document_structure fitz_open pdf_path = None).
Proof.
  split_and!.
  - intros e Hopen. unfold extract_document_structure. by rewrite Hopen.
  - intros doc h Hopen Hnone. unfold extract_document_structure.
    rewrite Hopen, Hnone. done.
  - intros doc raw lines h1 h2 merged baseline Hopen Hraw Hmerge Hderef Hne Hb Hnone.
    rewrite (extract_document_structure_run _ _ _ _ _ _ _ _ Hopen Hraw Hmerge Hderef).
    destruct merged as [|first rest]; [done|].
    unfold infer. destruct (title_extraction (first :: rest)) as [ttl boxes].
    simpl in *. rewrite Hb. simpl. by rewrite Hnone.
  - apply extract_document_structure_raises.
Qed.

(** A file that opens and whose first page cannot be loaded, as an
    encrypted file: the call raises, and the result is no sentinel. *)
Lemma unread_document_raises :
  extract_document_structure
    (λ _, inr (Unreadable [] "document closed or encrypted")) "locked.pdf"
  = None
  ∧ ∀ e, extract_document_structure
           (λ _, inr (Unreadable [] "document closed or encrypted")) "locked.pdf"
         ≠ Some (mkDocumentStructure ("Error: " +:+ e) []).
Proof. split; [reflexivity|]. intros e. discriminate. Qed.

(** The four cases on sample files: one that does not open, a scanned
    document without text, a one-page document whose second line is
    no larger than the first, and one whose second page cannot be read. *)
Lemma sentinel_and_empty_results_witness :
  extract_document_structure (λ _, inl "cannot open broken file") "b.pdf"
  = Some (mkDocumentStructure "Error: cannot open broken file" [])
  ∧ extract_document_structure (λ _, inr images_only) "scan.pdf"
    = Some (mkDocumentStructure "" [])
  ∧ extract_document_structure (λ _, inr small_doc) "a.pdf"
    = Some (mkDocumentStructure "Introduction" [])
  ∧ extract_document_structure (λ _, inr (Unreadable small_doc "bad page")) "d.pdf"
    = None.
Proof.
  split_and!; [| | |
    apply (proj2 (proj2 (proj2 (sentinel_and_empty_results
             (λ _, inr (Unreadable small_doc "bad page")) "d.pdf")))
             small_doc "bad page"); reflexivity].
  - apply (proj1 (sentinel_and_empty_results (λ _, inl "cannot open broken file") "b.pdf")).
    reflexivity.
  - apply (proj1 (proj2 (sentinel_and_empty_results (λ _, inr images_only) "scan.pdf"))
             images_only []); reflexivity.
  - apply (proj1 (proj2 (proj2 (sentinel_and_empty_results (λ _, inr small_doc) "a.pdf")))
             small_doc [0; 1]%nat [0; 1]%nat
             [mkLine "Introduction" (qz 18) 0 (bx 0 0 100 18);
              mkLine "plain Text here" (qz 12) 0 (bx 0 40 100 52)]
             [mkLine "Introduction" (qz 18) 0 (bx 0 0 100 18);
              mkLine "plain Text here" (qz 12) 0 (bx 0 40 100 52)]
             [mkLine "Introduction" (qz 18) 0 (bx 0 0 100 18);
              mkLine "plain Text here" (qz 12) 0 (bx 0 40 100 52)]
             (qz 18));
      [reflexivity | by vm_compute | by vm_compute | by vm_compute
      | done | by vm_compute | by vm_compute].
Defined.

(** * Further properties of the code *)

(** ** get_all_text_lines builds fresh dicts *)

Lemma extend_nil (st : list nat * list Line) : extend st [] = st.
Proof. destruct st as [refs h]. unfold extend. simpl. by rewrite !app_nil_r. Qed.

Lemma extend_extend (st : list nat * list Line) (a b : list Line) :
  extend (extend st a) b = extend st (a ++ b).
Proof.
  destruct st as [refs h]. unfold extend. simpl.
  rewrite !length_app, <-!app_assoc. f_equal. f_equal.
  by rewrite seq_app.
Qed.

Lemma foldl_bind_extend {X} (step : list nat * list Line → X → option (list nat * list Line))
    (f : X → list Line) (l : list X) :
  (∀ st x, step st x = Some (extend st (f x))) →
  ∀ st, foldl (λ acc x, st' ← acc; step st' x) (Some st) l
        = Some (extend st (concat (map f l))).
Proof.
  intros Hstep. induction l as [|x l IH]; intros st; simpl.
  - by rewrite extend_nil.
  - rewrite Hstep, IH. by rewrite extend_extend.
Qed.

Lemma text_line_step_record (page_num : Z) (st : list nat * list Line) (line : PdfLine) :
  text_line_step page_num st line
  = Some (extend st (option_list (line_record page_num line))).
Proof.
  unfold text_line_step, line_record.
  destruct (default [] (spans line)) as [|sp sps]; [by rewrite extend_nil|].
  case_bool_decide; [by rewrite extend_nil|].
  change (map span_size (sp :: sps)) with (span_size sp :: map span_size sps).
  destruct (most_common_1_mode (span_size sp) (map span_size sps))
    as (b & n & -> & _).
  done.
Qed.

Lemma concat_option_list {A B} (f : A → option B) (l : list A) :
  concat (map (λ x, option_list (f x)) l) = omap f l.
Proof.
  induction l as [|x l IH]; [done|]. simpl. rewrite IH. by destruct (f x).
Qed.

Lemma block_step_records (page_num : Z) (st : list nat * list Line) (block : Block) :
  block_step page_num st block = Some (extend st (block_records page_num block)).
Proof.
  unfold block_step, block_records. case_bool_decide; [|by rewrite extend_nil].
  rewrite (foldl_bind_extend _ (λ line, option_list (line_record page_num line)))
    by apply text_line_step_record.
  by rewrite concat_option_list.
Qed.

Lemma page_step_records (st : list nat * list Line) (numbered : nat * Page) :
  page_step st numbered = Some (extend st (page_records numbered)).
Proof.
  unfold page_step, page_records.
  by rewrite (foldl_bind_extend _ (block_records (Z.of_nat numbered.1)))
    by (intros; apply block_step_records).
Qed.

Lemma get_all_text_lines_records (doc : Doc) (h : list Line) :
  get_all_text_lines doc h = Some (extend ([], h) (raw_lines doc)).
Proof.
  change (read_pages doc h = Some (extend ([], h) (raw_lines doc))).
  unfold read_pages, raw_lines.
  by rewrite (foldl_bind_extend _ page_records) by apply page_step_records.
Qed.

Lemma deref_appended (h vs : list Line) :
  deref (h ++ vs) (seq (length h) (length vs)) = Some vs.
Proof.
  apply deref_Some, Forall2_same_length_lookup_2.
  - by rewrite length_seq.
  - intros i r v Hr Hv. apply lookup_seq in Hr as [-> _].
    by rewrite lookup_app_r, Nat.add_comm, Nat.add_sub by lia.
Qed.

Lemma get_all_text_lines_run (doc : Doc) :
  get_all_text_lines doc [] = Some (seq 0 (length (raw_lines doc)), raw_lines doc)
  ∧ deref (raw_lines doc) (seq 0 (length (raw_lines doc))) = Some (raw_lines doc).
Proof.
  split; [by rewrite get_all_text_lines_records|apply deref_seq].
Qed.

(** X1: whatever dicts exist already, [get_all_text_lines] leaves them as
    they are, builds one new dict per kept line behind them and returns
    the references to exactly the new dicts, in the order of the
    document: pages, then blocks, then lines. *)
Theorem get_all_text_lines_fresh (doc : Doc) (h : list Line) :
  get_all_text_lines doc h
  = Some (seq (length h) (length (raw_lines doc)), h ++ raw_lines doc)
  ∧ deref (h ++ raw_lines doc) (seq (length h) (length (raw_lines doc)))
    = Some (raw_lines doc)
  ∧ NoDup (seq (length h) (length (raw_lines doc)))
  ∧ ∀ r : nat, r < length h → (h ++ raw_lines doc) !! r = h !! r.
Proof.
  split_and!.
  - by rewrite get_all_text_lines_records.
  - apply deref_appended.
  - apply NoDup_seq.
  - intros r Hr. by apply lookup_app_l.
Qed.

(** ** Texts without white space at their ends *)

Lemma rev_app_append (s : string) :
  ∀ acc : string, String.rev_app s acc = String.rev s +:+ acc.
Proof.
  unfold String.rev. induction s as [|c s IH]; intros acc; [done|].
  simpl. rewrite (IH (String c acc)), (IH (String c "")).
  by rewrite append_assoc.
Qed.

Lemma rev_cons (c : Ascii.ascii) (s : string) :
  String.rev (String c s) = String.rev s +:+ String c "".
Proof. unfold String.rev at 1. simpl. apply rev_app_append. Qed.

Lemma append_empty (a b : string) : a +:+ b = "" → a = "" ∧ b = "".
Proof. by destruct a. Qed.

Lemma rev_empty (s : string) : String.rev s = "" → s = "".
Proof.
  destruct s as [|c s]; [done|]. rewrite rev_cons.
  by intros [_ ?]%append_empty.
Qed.

Lemma head_space_append (a b : string) :
  a ≠ "" → head_space (a +:+ b) = head_space a.
Proof. by destruct a. Qed.

Lemma last_space_append (a b : string) :
  b ≠ "" → last_space (a +:+ b) = last_space b.
Proof.
  intros Hb. induction a as [|c a IH]; [done|].
  change (last_space (String c (a +:+ b)) = last_space b).
  destruct (a +:+ b) as [|c' s'] eqn:E.
  - by apply append_empty in E as [_ ?].
  - rewrite <-IH. done.
Qed.

Lemma last_space_rev (s : string) : last_space (String.rev s) = head_space s.
Proof.
  destruct s as [|c s]; [done|]. rewrite rev_cons.
  by rewrite last_space_append.
Qed.

Lemma head_space_rev (s : string) : head_space (String.rev s) = last_space s.
Proof.
  induction s as [|c s IH]; [done|]. rewrite rev_cons.
  destruct s as [|c' s']; [done|].
  rewrite head_space_append; [by rewrite IH|].
  by intros ?%rev_empty.
Qed.

Lemma lstrip_head (s : string) : head_space (Py.lstrip s) = false.
Proof.
  induction s as [|c s IH]; [done|]. simpl.
  destruct (Py.is_space c) eqn:Hc; [done|]. simpl. done.
Qed.

Lemma lstrip_last (s : string) :
  Py.lstrip s ≠ "" → last_space (Py.lstrip s) = last_space s.
Proof.
  induction s as [|c s IH]; [done|]. cbn [Py.lstrip].
  destruct (Py.is_space c) eqn:Hc; [|done].
  intros Hne. rewrite IH by done.
  destruct s as [|c' s']; [done|done].
Qed.

(** What [strip] leaves is empty or trimmed. *)
Lemma strip_trimmed (s : string) : Py.strip s ≠ "" → trimmed (Py.strip s).
Proof.
  unfold Py.strip. intros Hne. split; [done|].
  set (t := Py.lstrip s) in *. set (u := Py.lstrip (String.rev t)) in *.
  assert (u ≠ "") as Hu by (by intros Hu; rewrite Hu in Hne).
  split.
  - rewrite head_space_rev. unfold u. rewrite lstrip_last by done.
    rewrite last_space_rev. apply lstrip_head.
  - rewrite last_space_rev. apply lstrip_head.
Qed.

(** ** The lines that get_all_text_lines keeps *)

Lemma mode_of_unique (l : list Qc) (b b' : Qc) :
  Spec.mode_of l b → Spec.mode_of l b' → b = b'.
Proof.
  intros [Hmax (l1 & l2 & Hl & Hnin & Hless)] [Hmax' (l1' & l2' & Hl' & Hnin' & Hless')].
  assert (l !! length l1 = Some b) as Hb by (by rewrite Hl, list_lookup_middle).
  assert (l !! length l1' = Some b') as Hb' by (by rewrite Hl', list_lookup_middle).
  assert (length l1 < length l1' ∨ length l1' < length l1 ∨ length l1 = length l1')
    as [Hlt|[Hlt|Heq]] by lia.
  - rewrite Hl', lookup_app_l in Hb by done.
    apply list_elem_of_lookup_2 in Hb.
    specialize (Hless' _ Hb). specialize (Hmax b'). lia.
  - rewrite Hl, lookup_app_l in Hb' by done.
    apply list_elem_of_lookup_2 in Hb'.
    specialize (Hless _ Hb'). specialize (Hmax' b). lia.
  - rewrite Heq in Hb. congruence.
Qed.

Lemma line_record_Some (page : Z) (line : PdfLine) (l : Line) :
  line_record page line = Some l ↔
  ∃ sp sps,
    spans line = Some (sp :: sps)
    ∧ text l = Py.strip (Py.join "" (map span_text (sp :: sps)))
    ∧ text l ≠ ""
    ∧ Spec.mode_of (map span_size (sp :: sps)) (font_size l)
    ∧ page_num l = page
    ∧ bbox l = line_bbox line.
Proof.
  unfold line_record. split.
  - destruct (spans line) as [[|sp sps]|]; simpl; [done| |done].
    case_bool_decide as Htext; [done|].
    destruct (most_common_1_mode (span_size sp) (map span_size sps))
      as (b & n & Hb & Hmode).
    change (map span_size (sp :: sps)) with (span_size sp :: map span_size sps).
    rewrite Hb. simpl. intros [= <-]. by exists sp, sps.
  - intros (sp & sps & -> & Htext & Hne & Hmode & Hpage & Hbox).
    cbn [from_option id]. cbv beta iota zeta.
    rewrite <-Htext. rewrite bool_decide_eq_false_2 by done.
    destruct (most_common_1_mode (span_size sp) (map span_size sps))
      as (b & n & Hb & Hmode').
    change (map span_size (sp :: sps)) with (span_size sp :: map span_size sps).
    rewrite Hb. simpl. f_equal. destruct l as [tx fs pg bb]. simpl in *.
    subst. f_equal.
    by apply (mode_of_unique (span_size sp :: map span_size sps)).
Qed.

Lemma raw_lines_elem (doc : Doc) (l : Line) :
  l ∈ raw_lines doc ↔
  ∃ (p : nat) (page : Page) (block : Block) (ls : list PdfLine) (line : PdfLine),
    doc !! p = Some page ∧ block ∈ page
    ∧ block_type block = 0%Z ∧ block_lines block = Some ls ∧ line ∈ ls
    ∧ line_record (Z.of_nat p) line = Some l.
Proof.
  unfold raw_lines. rewrite list_elem_of_In, in_concat. split.
  - intros (recs & Hrecs%list_elem_of_In & Hl%list_elem_of_In).
    apply list_elem_of_fmap in Hrecs as ([p page] & -> & Hp).
    apply elem_of_lookup_imap in Hp as (p' & page' & [= -> ->] & Hpage).
    unfold page_records in Hl. simpl in Hl.
    apply list_elem_of_In, in_concat in Hl as (recs & Hrecs%list_elem_of_In & Hl%list_elem_of_In).
    apply list_elem_of_fmap in Hrecs as (block & -> & Hblock).
    unfold block_records in Hl. case_bool_decide as Htype; [|by apply elem_of_nil in Hl].
    apply list_elem_of_omap in Hl as (line & Hline & Hrec).
    destruct (block_lines block) as [ls|] eqn:Hls; [|by apply elem_of_nil in Hline].
    by exists p', page', block, ls, line.
  - intros (p & page & block & ls & line & Hpage & Hblock & Htype & Hls & Hline & Hrec).
    exists (page_records (p, page)). split.
    + apply list_elem_of_In, list_elem_of_fmap. exists (p, page). split; [done|].
      by apply (elem_of_lookup_imap_2 pair).
    + apply list_elem_of_In. unfold page_records. simpl.
      apply list_elem_of_In, in_concat. exists (block_records (Z.of_nat p) block).
      split; apply list_elem_of_In.
      * apply list_elem_of_fmap. by exists block.
      * unfold block_records. rewrite bool_decide_eq_true_2 by done.
        apply list_elem_of_omap. exists line. by rewrite Hls.
Qed.

Lemma page_records_page (p : nat) (page : Page) (l : Line) :
  l ∈ page_records (p, page) → page_num l = Z.of_nat p.
Proof.
  unfold page_records. simpl. rewrite list_elem_of_In, in_concat.
  intros (recs & Hrecs%list_elem_of_In & Hl%list_elem_of_In).
  apply list_elem_of_fmap in Hrecs as (block & -> & _).
  unfold block_records in Hl. case_bool_decide; [|by apply elem_of_nil in Hl].
  apply list_elem_of_omap in Hl as (line & _ & Hrec).
  by apply line_record_Some in Hrec as (_ & _ & _ & _ & _ & _ & ? & _).
Qed.

Lemma StronglySorted_same {A} (R : relation A) (l : list A) :
  (∀ a b, a ∈ l → b ∈ l → R a b) → StronglySorted R l.
Proof.
  induction l as [|x l IH]; intros HR; constructor.
  - apply IH. intros a b Ha Hb. apply HR; by right.
  - apply Forall_forall. intros y Hy. apply HR; [by left|by right].
Qed.

Lemma raw_lines_from_sorted (doc : Doc) :
  ∀ n : nat,
    StronglySorted (λ a b, (page_num a ≤ page_num b)%Z)
      (concat (map page_records (imap (λ i, pair (n + i)) doc)))
    ∧ Forall (λ l, (Z.of_nat n ≤ page_num l)%Z)
        (concat (map page_records (imap (λ i, pair (n + i)) doc))).
Proof.
  induction doc as [|page doc IH]; intros n; simpl.
  - split; constructor.
  - rewrite (imap_ext _ (λ i, pair (S n + i))) by (intros; simpl; f_equal; lia).
    destruct (IH (S n)) as [Hsorted Hge]. split.
    + apply StronglySorted_app_2; [| |done].
      * intros a b Ha Hb. apply page_records_page in Ha.
        rewrite Forall_forall in Hge. specialize (Hge _ Hb). lia.
      * apply StronglySorted_same. intros a b Ha Hb.
        apply page_records_page in Ha, Hb. lia.
    + apply Forall_app. split.
      * apply Forall_forall. intros l Hl. apply page_records_page in Hl. lia.
      * eapply Forall_impl; [exact Hge|]. intros l Hl. simpl in Hl. lia.
Qed.

Lemma extracted_lines_of_doc_trimmed (doc : Doc) :
  Forall (λ l, trimmed (text l)) (raw_lines doc).
Proof.
  apply Forall_forall. intros l Hl.
  apply raw_lines_elem in Hl as (p & page & block & ls & line & _ & _ & _ & _ & _ & Hrec).
  apply line_record_Some in Hrec as (sp & sps & _ & Htext & Hne & _).
  rewrite Htext. apply strip_trimmed. by rewrite <-Htext.
Qed.

(** X2: every line that [get_all_text_lines] returns has a text that is
    not empty and has no white space at either end, and the index of a
    page of the document as its page number; the lines are in the order
    of their pages. *)
Theorem extracted_lines_trimmed_and_paged (doc : Doc) :
  ∃ (refs : list nat) (h vs : list Line),
    get_all_text_lines doc [] = Some (refs, h)
    ∧ deref h refs = Some vs
    ∧ Forall (λ l, trimmed (text l) ∧ (0 ≤ page_num l < Z.of_nat (length doc))%Z) vs
    ∧ StronglySorted (λ a b, (page_num a ≤ page_num b)%Z) vs.
Proof.
  destruct (get_all_text_lines_run doc) as (Hrun & Hvs).
  eexists _, _, (raw_lines doc). split_and!; [exact Hrun|exact Hvs| |].
  - apply Forall_forall. intros l Hl.
    apply raw_lines_elem in Hl as (p & page & block & ls & line & Hp & _ & _ & _ & _ & Hrec).
    apply line_record_Some in Hrec as (sp & sps & _ & Htext & Hne & _ & Hpage & _).
    split.
    + rewrite Htext. apply strip_trimmed. by rewrite <-Htext.
    + apply lookup_lt_Some in Hp. lia.
  - apply (raw_lines_from_sorted doc 0).
Qed.

(** X3: the lines that [get_all_text_lines] returns are exactly those
    built from a reported line with at least one span in a block of type
    0, whose joined span texts are not blank: the text is the stripped
    join of the span texts, the font size is the most frequent span size
    (the first one met among the most frequent ones), the page number is
    the index of the page and the box is the box of the reported line. *)
Theorem extracted_lines_origin (doc : Doc) :
  ∃ (refs : list nat) (h vs : list Line),
    get_all_text_lines doc [] = Some (refs, h)
    ∧ deref h refs = Some vs
    ∧ ∀ l : Line,
        l ∈ vs ↔
        ∃ (p : nat) (page : Page) (block : Block) (ls : list PdfLine)
          (line : PdfLine) (sp : Span) (sps : list Span),
          doc !! p = Some page ∧ block ∈ page
          ∧ block_type block = 0%Z ∧ block_lines block = Some ls ∧ line ∈ ls
          ∧ spans line = Some (sp :: sps)
          ∧ text l = Py.strip (Py.join "" (map span_text (sp :: sps)))
          ∧ text l ≠ ""
          ∧ Spec.mode_of (map span_size (sp :: sps)) (font_size l)
          ∧ page_num l = Z.of_nat p
          ∧ bbox l = line_bbox line.
Proof.
  destruct (get_all_text_lines_run doc) as (Hrun & Hvs).
  eexists _, _, (raw_lines doc). split_and!; [exact Hrun|exact Hvs|].
  intros l. rewrite raw_lines_elem. split.
  - intros (p & page & block & ls & line & Hp & Hb & Ht & Hls & Hline & Hrec).
    apply line_record_Some in Hrec as (sp & sps & Hrec).
    exists p, page, block, ls, line, sp, sps. tauto.
  - intros (p & page & block & ls & line & sp & sps & Hp & Hb & Ht & Hls & Hline & Hrec).
    exists p, page, block, ls, line. split_and!; [done..|].
    apply line_record_Some. by exists sp, sps.
Qed.

Lemma extract_opened_raw_lines (fitz_open : string → string + Opened)
    (pdf_path : string) (doc : Doc) :
  fitz_open pdf_path = inr doc →
  extract_document_structure fitz_open pdf_path
  = infer (Spec.merge (Qc_of_Z 5) (raw_lines doc)).
Proof.
  intros Hopen.
  destruct (extract_document_structure_opened _ _ _ Hopen)
    as (raw & h & vs & Hrun & Hvs & ->).
  destruct (get_all_text_lines_run doc) as (Hrun' & Hvs').
  rewrite Hrun' in Hrun. injection Hrun as <- <-.
  assert (Some vs = Some (raw_lines doc)) as [= ->] by (by rewrite <-Hvs, <-Hvs').
  done.
Qed.

(** A document that opens and is read to its end has a result. *)
Lemma extract_document_structure_total (fitz_open : string → string + Opened)
    (pdf_path : string) (doc : Doc) :
  fitz_open pdf_path = inr doc →
  ∃ d, extract_document_structure fitz_open pdf_path = Some d.
Proof.
  intros Hopen. rewrite (extract_opened_raw_lines _ _ _ Hopen). apply infer_total.
Qed.

(** X4: the result of [extract_document_structure] is the sentinel when
    [fitz.open] raises; it is what lines 79-131 make of the fold of the
    extracted lines with threshold 5 when the document opens and is read
    to its end: the updates in place of the line dicts do not show in the
    result; and there is no result, the exception of the engine leaving
    the function, when the document opens but cannot be read to its
    end. *)
Theorem extract_document_structure_pipeline (fitz_open : string → string + Opened)
    (pdf_path : string) :
  extract_document_structure fitz_open pdf_path
  = match fitz_open pdf_path with
    | inl e => Some (mkDocumentStructure ("Error: " +:+ e) [])
    | inr (Readable doc) => infer (Spec.merge (Qc_of_Z 5) (raw_lines doc))
    | inr (Unreadable read e) => None
    end.
Proof.
  destruct (fitz_open pdf_path) as [e|[doc|read e]] eqn:Hopen.
  - unfold extract_document_structure. by rewrite Hopen.
  - by apply extract_opened_raw_lines.
  - by eapply extract_document_structure_raises.
Qed.

Lemma raw_lines_no_text (doc : Doc) :
  Forall (Forall (λ block, block_type block ≠ 0%Z)) doc → raw_lines doc = [].
Proof.
  intros Hdoc. destruct (raw_lines doc) as [|l ls] eqn:E; [done|]. exfalso.
  assert (l ∈ raw_lines doc) as Hl by (rewrite E; by left).
  apply raw_lines_elem in Hl as (p & page & block & _ & _ & Hp & Hb & Ht & _).
  rewrite Forall_forall in Hdoc.
  specialize (Hdoc page (list_elem_of_lookup_2 _ _ _ Hp)).
  rewrite Forall_forall in Hdoc. by apply (Hdoc block).
Qed.

(** X5: a document without a block of type 0 (no pages, or images only)
    has the empty title and the empty outline. *)
Theorem no_text_block_empty_result (fitz_open : string → string + Opened)
    (pdf_path : string) (doc : Doc) :
  fitz_open pdf_path = inr doc →
  Forall (Forall (λ block, block_type block ≠ 0%Z)) doc →
  extract_document_structure fitz_open pdf_path
  = Some (mkDocumentStructure "" []).
Proof.
  intros Hopen Hdoc. rewrite (extract_opened_raw_lines _ _ _ Hopen).
  by rewrite raw_lines_no_text.
Qed.

Lemma no_text_block_empty_result_witness :
  extract_document_structure (λ _, inr images_only) "scan.pdf"
  = Some (mkDocumentStructure "" []).
Proof.
  apply (no_text_block_empty_result (λ _, inr images_only) "scan.pdf" images_only).
  - reflexivity.
  - unfold images_only. repeat constructor; by vm_compute.
Defined.

(** ** More on merge_nearby_lines *)

Lemma qmin_le (a b : Qc) : (Spec.qmin a b ≤ a)%Qc ∧ (Spec.qmin a b ≤ b)%Qc.
Proof.
  unfold Spec.qmin. case_decide as Hle.
  - split; [apply Qcle_refl|done].
  - split; [|apply Qcle_refl]. apply Qcnot_le_lt in Hle. by apply Qclt_le_weak.
Qed.

Lemma qmax_ge (a b : Qc) : (a ≤ Spec.qmax a b)%Qc ∧ (b ≤ Spec.qmax a b)%Qc.
Proof.
  unfold Spec.qmax. case_decide as Hle.
  - split; [done|apply Qcle_refl].
  - split; [apply Qcle_refl|]. apply Qcnot_le_lt in Hle. by apply Qclt_le_weak.
Qed.

Lemma covers_refl (a : BBox) : covers a a.
Proof. repeat split; apply Qcle_refl. Qed.

Lemma covers_trans (a b c : BBox) : covers a b → covers b c → covers a c.
Proof.
  intros (?&?&?&?) (?&?&?&?). repeat split; by eapply Qcle_trans.
Qed.

Lemma union_covers (a b : BBox) :
  covers (Spec.union a b) a ∧ covers (Spec.union a b) b.
Proof.
  unfold covers, Spec.union, bbox_0, bbox_1, bbox_2, bbox_3. simpl.
  pose proof (qmin_le a.1.1.1 b.1.1.1). pose proof (qmin_le a.1.1.2 b.1.1.2).
  pose proof (qmax_ge a.1.2 b.1.2). pose proof (qmax_ge a.2 b.2).
  tauto.
Qed.

Lemma fuse_all_covers (first : Line) (others : list Line) (c : Line) :
  c ∈ first :: others → covers (bbox (Spec.fuse_all first others)) (bbox c).
Proof.
  induction others as [|n others IH] using rev_ind; intros Hc.
  - apply list_elem_of_singleton in Hc as ->. apply covers_refl.
  - rewrite fuse_all_snoc. simpl.
    destruct (union_covers (bbox (Spec.fuse_all first others)) (bbox n)) as [Ha Hn].
    rewrite app_comm_cons in Hc. apply elem_of_app in Hc as [Hc|Hc].
    + eapply covers_trans; [exact Ha|]. by apply IH.
    + by apply list_elem_of_singleton in Hc as ->.
Qed.

Lemma qmin_either (a b : Qc) : Spec.qmin a b = a ∨ Spec.qmin a b = b.
Proof. unfold Spec.qmin. case_decide; auto. Qed.

Lemma qmax_either (a b : Qc) : Spec.qmax a b = a ∨ Spec.qmax a b = b.
Proof. unfold Spec.qmax. case_decide; auto. Qed.

(** Every edge of the box of a fused line is the edge of a line of the
    run. *)
Lemma fuse_all_edges (first : Line) (others : list Line) :
  (∃ c, c ∈ first :: others ∧ bbox_0 (bbox (Spec.fuse_all first others)) = bbox_0 (bbox c))
  ∧ (∃ c, c ∈ first :: others ∧ bbox_1 (bbox (Spec.fuse_all first others)) = bbox_1 (bbox c))
  ∧ (∃ c, c ∈ first :: others ∧ bbox_2 (bbox (Spec.fuse_all first others)) = bbox_2 (bbox c))
  ∧ (∃ c, c ∈ first :: others ∧ bbox_3 (bbox (Spec.fuse_all first others)) = bbox_3 (bbox c)).
Proof.
  induction others as [|n others IH] using rev_ind.
  - split_and!; exists first; (split; [by left|done]).
  - rewrite fuse_all_snoc. simpl.
    destruct IH as ((c0 & Hc0 & E0) & (c1 & Hc1 & E1) & (c2 & Hc2 & E2) & (c3 & Hc3 & E3)).
    assert (∀ c, c ∈ first :: others → c ∈ first :: others ++ [n]) as Hin.
    { intros c Hc. rewrite app_comm_cons. apply elem_of_app. by left. }
    assert (n ∈ first :: others ++ [n]) as Hn.
    { rewrite app_comm_cons. apply elem_of_app. right. by left. }
    unfold Spec.union, bbox_0, bbox_1, bbox_2, bbox_3 in *. simpl.
    split_and!.
    + destruct (qmin_either (bbox (Spec.fuse_all first others)).1.1.1 (bbox n).1.1.1)
        as [->| ->]; [exists c0|exists n]; auto.
    + destruct (qmin_either (bbox (Spec.fuse_all first others)).1.1.2 (bbox n).1.1.2)
        as [->| ->]; [exists c1|exists n]; auto.
    + destruct (qmax_either (bbox (Spec.fuse_all first others)).1.2 (bbox n).1.2)
        as [->| ->]; [exists c2|exists n]; auto.
    + destruct (qmax_either (bbox (Spec.fuse_all first others)).2 (bbox n).2)
        as [->| ->]; [exists c3|exists n]; auto.
Qed.

(** X6: the box of every line that a merge produces covers the boxes of
    all lines of its run, and each of its four edges is the edge of a
    line of the run: it is the smallest box around them. *)
Theorem merged_box_is_hull (t : Qc) (lines : list Line) :
  ∃ (out : list Line) (rs : list (list Line)),
    merge_values t lines = Some out
    ∧ concat rs = lines
    ∧ Forall2 (λ r o,
        (∀ c, c ∈ r → covers (bbox o) (bbox c))
        ∧ (∃ c, c ∈ r ∧ bbox_0 (bbox o) = bbox_0 (bbox c))
        ∧ (∃ c, c ∈ r ∧ bbox_1 (bbox o) = bbox_1 (bbox c))
        ∧ (∃ c, c ∈ r ∧ bbox_2 (bbox o) = bbox_2 (bbox c))
        ∧ (∃ c, c ∈ r ∧ bbox_3 (bbox o) = bbox_3 (bbox c))) rs out.
Proof.
  destruct (merge_runs t lines) as (rs & Hcat & Hruns).
  exists (Spec.merge t lines), rs. split_and!; [apply merge_values_spec|done|].
  eapply Forall2_impl; [exact Hruns|].
  intros r o (first & others & -> & -> & _). split.
  - intros c Hc. by apply fuse_all_covers.
  - apply fuse_all_edges.
Qed.

Lemma join_snoc (sep : string) (l : list string) (x : string) :
  l ≠ [] → Py.join sep (l ++ [x]) = (Py.join sep l +:+ sep) +:+ x.
Proof.
  induction l as [|y l IH]; [done|]. intros _.
  destruct l as [|z l]; [simpl; by rewrite append_assoc|].
  change ((y :: z :: l) ++ [x]) with (y :: ((z :: l) ++ [x])).
  rewrite join_cons by (by destruct l).
  rewrite IH by done. rewrite (join_cons sep y (z :: l)) by done.
  by rewrite !append_assoc.
Qed.

Lemma fuse_all_text (first : Line) (others : list Line) :
  text (Spec.fuse_all first others) = Py.join " " (map text (first :: others)).
Proof.
  induction others as [|n others IH] using rev_ind; [done|].
  rewrite fuse_all_snoc. simpl text. rewrite IH.
  rewrite app_comm_cons, map_app.
  change (map text [n]) with [text n]. by rewrite join_snoc.
Qed.

(** X7: the text of every line that a merge produces is the texts of the
    lines of its run, in their order, joined by single spaces. *)
Theorem merged_text_is_join (t : Qc) (lines : list Line) :
  ∃ (out : list Line) (rs : list (list Line)),
    merge_values t lines = Some out
    ∧ concat rs = lines
    ∧ Forall (λ r, r ≠ []) rs
    ∧ Forall2 (λ r o, text o = Py.join " " (map text r)) rs out.
Proof.
  destruct (merge_runs t lines) as (rs & Hcat & Hruns).
  exists (Spec.merge t lines), rs. split_and!; [apply merge_values_spec|done| |].
  - clear Hcat. induction Hruns as [|r o rs out Hr _ IH]; constructor; [|done].
    by destruct Hr as (first & others & -> & _).
  - eapply Forall2_impl; [exact Hruns|].
    intros r o (first & others & -> & -> & _). apply fuse_all_text.
Qed.

Lemma maximal_nonpositive (t : Qc) (vs : list Line) :
  (t ≤ Q2Qc 0)%Qc → Spec.maximal t vs = true.
Proof.
  intros Ht. induction vs as [|a vs IH]; [done|].
  destruct vs as [|b vs]; [done|].
  change (negb (bool_decide (Spec.mergeable t a b)) && Spec.maximal t (b :: vs) = true).
  rewrite IH, andb_true_r. apply negb_true_iff, bool_decide_eq_false.
  intros (_ & Hgap & _). apply abs_lt_positive in Hgap.
  by apply (Qclt_not_le _ _ Hgap).
Qed.

(** X8: with a threshold of 0 or below nothing is merged: the call
    returns the references it was given and changes no dict, whether or
    not a dict occurs twice. *)
Theorem merge_nonpositive_threshold (t : Qc) (refs : list nat) (h vs : list Line) :
  (t ≤ Q2Qc 0)%Qc →
  deref h refs = Some vs →
  merge_nearby_lines refs t h = Some (refs, h).
Proof.
  intros Ht Hvs. eapply merge_nearby_lines_maximal; [exact Hvs|].
  by apply maximal_nonpositive.
Qed.

Lemma merge_nonpositive_threshold_witness :
  merge_nearby_lines [0; 1; 2; 1] (Q2Qc 0) stacked = Some ([0; 1; 2; 1], stacked).
Proof.
  apply (merge_nonpositive_threshold (Q2Qc 0) [0; 1; 2; 1] stacked
           [stacked_a; stacked_b; stacked_c; stacked_b]).
  - by vm_compute.
  - by vm_compute.
Defined.

Lemma merge_loop_writes (t : Qc) (rest : list nat) :
  ∀ (merged : list nat) (cur : nat) (h : list Line) (out : list nat) (h' : list Line),
    merge_loop t rest merged cur h = Some (out, h') →
    length h' = length h
    ∧ ∃ kept : list nat,
        out = merged ++ cur :: kept
        ∧ kept `sublist_of` rest
        ∧ ∀ r : nat, r ∉ cur :: kept → h' !! r = h !! r.
Proof.
  induction rest as [|next rest IH]; intros merged cur h out h' Hrun.
  - simpl in Hrun. injection Hrun as <- <-. split; [done|]. by exists [].
  - simpl in Hrun.
    destruct (h !! next) as [nl|] eqn:Hnext; [|done].
    destruct (h !! cur) as [cl|] eqn:Hcur; [|done]. simpl in Hrun.
    destruct (merge_test t cl nl).
    + destruct (_ !! next) as [nl1|] eqn:Hnext1 in Hrun; [|done]. simpl in Hrun.
      pose proof (lookup_lt_Some _ _ _ Hcur) as Hlt.
      rewrite list_lookup_insert_eq in Hrun by done. simpl in Hrun.
      destruct (IH _ _ _ _ _ Hrun) as (Hlen & kept & -> & Hsub & Hframe).
      split; [by rewrite Hlen, !length_insert|].
      exists kept. split_and!; [done|by apply sublist_cons|].
      intros r Hr. rewrite Hframe by done.
      apply not_elem_of_cons in Hr as [Hne _].
      by rewrite !list_lookup_insert_ne.
    + destruct (IH _ _ _ _ _ Hrun) as (Hlen & kept & -> & Hsub & Hframe).
      split; [done|]. exists (next :: kept).
      split_and!; [by rewrite <-app_assoc|by apply sublist_skip|].
      intros r Hr. apply Hframe. by apply not_elem_of_cons in Hr as [_ ?].
Qed.

(** X17: the test of lines 21-23 lets a line join the current line only
    when the two are on the same page and their font sizes, as numbers,
    are less than 1 apart, whatever the rounding of the float difference,
    and only under a positive threshold. *)
Theorem merge_test_sound (threshold : Qc) (current_line next_line : Line) :
  merge_test threshold current_line next_line = true →
  page_num next_line = page_num current_line
  ∧ (Qcabs (font_size next_line - font_size current_line) < 1)%Qc
  ∧ (0 < threshold)%Qc.
Proof.
  intros (Hpage & Hgap & Hsize)%merge_test_true. split_and!; [done| |].
  - by apply sub_abs_lt_1.
  - by eapply abs_lt_positive.
Qed.

Lemma merge_test_sound_witness :
  page_num stacked_b = page_num stacked_a
  ∧ (Qcabs (font_size stacked_b - font_size stacked_a) < 1)%Qc
  ∧ (0 < qz 1)%Qc.
Proof. apply (merge_test_sound (qz 1) stacked_a stacked_b). by vm_compute. Defined.

(** X9: whatever references the call is given (a dict may occur twice),
    it returns a sublist of them that starts with the first one, keeps the
    number of dicts, and changes no dict but those it returns: the lines
    merged into another dict stay as they were. *)
Theorem merge_writes_returned_only (t : Qc) (refs : list nat) (h : list Line)
    (out : list nat) (h' : list Line) :
  merge_nearby_lines refs t h = Some (out, h') →
  length h' = length h
  ∧ out `sublist_of` refs
  ∧ head out = head refs
  ∧ ∀ r : nat, r ∉ out → h' !! r = h !! r.
Proof.
  intros Hrun. destruct refs as [|first rest].
  - simpl in Hrun. injection Hrun as <- <-. by split_and!.
  - simpl in Hrun.
    destruct (merge_loop_writes _ _ _ _ _ _ _ Hrun) as (Hlen & kept & -> & Hsub & Hframe).
    split_and!; [done|by apply sublist_skip|done|done].
Qed.

Lemma merge_writes_returned_only_witness :
  length fragments_merged = length fragments
  ∧ [0; 2] `sublist_of` [0; 1; 2]
  ∧ head [0; 2] = head [0; 1; 2]
  ∧ ∀ r : nat, r ∉ [0; 2] → fragments_merged !! r = fragments !! r.
Proof.
  apply (merge_writes_returned_only default_threshold [0; 1; 2] fragments
           [0; 2] fragments_merged).
  by vm_compute.
Defined.

(** ** More on the outline *)

Lemma build_outline_elem (candidates : list Line) (e : OutlineEntry) :
  e ∈ build_outline candidates ↔
  ∃ (c : Line) (i : nat),
    c ∈ candidates ∧ i < 4
    ∧ heading_font_sizes candidates !! i = Some (font_size c)
    ∧ e = mkOutlineEntry (Spec.level_name i) (text c) (page_num c + 1).
Proof.
  rewrite build_outline_sorted. unfold sort_headings.
  rewrite list_elem_of_fmap. split.
  - intros (h & -> & Hh). rewrite sort_perm, classify_spec in Hh.
    apply list_elem_of_fmap in Hh as (c & -> & Hc).
    apply list_elem_of_filter in Hc as [Htier Hc].
    apply elem_of_take in Htier as (i & Hi & Hlt).
    exists c, i. split_and!; [done..|].
    unfold emit, to_heading, level_of. simpl.
    assert (size_to_level (heading_font_sizes candidates) !! font_size c
            = Some (Spec.level_name i)) as ->; [|done].
    apply size_to_level_lookup; [apply heading_font_sizes_NoDup|]. by exists i.
  - intros (c & i & Hc & Hlt & Hi & ->).
    exists (to_heading (size_to_level (heading_font_sizes candidates)) c). split.
    + unfold emit, to_heading, level_of. simpl.
      assert (size_to_level (heading_font_sizes candidates) !! font_size c
              = Some (Spec.level_name i)) as ->; [|done].
      apply size_to_level_lookup; [apply heading_font_sizes_NoDup|]. by exists i.
    + rewrite sort_perm, classify_spec. apply list_elem_of_fmap. exists c.
      split; [done|]. apply list_elem_of_filter. split; [|done].
      apply elem_of_take. by exists i.
Qed.

Lemma build_outline_length (candidates : list Line) :
  length (build_outline candidates) ≤ length candidates.
Proof.
  rewrite build_outline_sorted, length_map. unfold sort_headings.
  rewrite sort_perm, classify_spec, length_map. apply length_filter.
Qed.

(** X10: every entry of the outline comes from a line of the document:
    it has the text of the line and its page number plus one, and the
    line has a font size above the baseline, fewer than 20 words and a box
    that is not the box of a title line; the outline has no more entries
    than the document has lines. *)
Theorem outline_entries_origin (first : Line) (rest : list Line) :
  ∃ (baseline : Qc) (d : DocumentStructure),
    baseline_size (first :: rest) = Some baseline
    ∧ infer (first :: rest) = Some d
    ∧ length (outline d) ≤ length (first :: rest)
    ∧ ∀ e, e ∈ outline d →
        ∃ l, l ∈ first :: rest
          ∧ o_text e = text l
          ∧ page e = (page_num l + 1)%Z
          ∧ (baseline < font_size l)%Qc
          ∧ length (Py.split (text l)) < 20
          ∧ bbox l ∉ (title_extraction (first :: rest)).2.
Proof.
  destruct (infer_cons first rest) as (b & Hb & _ & Hinfer).
  eexists b, _. split_and!; [done|exact Hinfer| |]; simpl.
  - etrans; [apply build_outline_length|].
    rewrite heading_candidates_filter. apply (length_filter _ (first :: rest)).
  - intros e He. apply build_outline_elem in He as (c & i & Hc & _ & _ & ->).
    rewrite heading_candidates_filter in Hc.
    apply list_elem_of_filter in Hc as [(Hbox & Hsize & Hwords) Hc].
    exists c. by split_and!.
Qed.

Lemma mode_of_elem (l : list Qc) (b : Qc) : Spec.mode_of l b → b ∈ l.
Proof. intros [_ (l1 & l2 & -> & _)]. set_solver. Qed.

(** X11: when all lines have the same font size the outline is empty, and
    the title is the texts of all lines of the first page joined by
    single spaces. *)
Theorem uniform_font_no_outline (first : Line) (rest : list Line) :
  Forall (λ l, font_size l = font_size first) rest →
  infer (first :: rest)
  = Some (mkDocumentStructure
            (Py.join " " (map text (filter (λ l, page_num l = 0%Z) (first :: rest))))
            []).
Proof.
  intros Hsame.
  assert (∀ l, l ∈ first :: rest → font_size l = font_size first) as Hall.
  { intros l [->|Hl]%elem_of_cons; [done|].
    rewrite Forall_forall in Hsame. by apply Hsame. }
  destruct (infer_cons first rest) as (b & Hb & Hmode & ->).
  assert (b = font_size first) as ->.
  { apply mode_of_elem in Hmode. apply list_elem_of_fmap in Hmode as (l & -> & Hl).
    by apply Hall. }
  do 2 f_equal.
  - unfold title_extraction.
    destruct (filter _ (first :: rest)) as [|p ps] eqn:Hfp; [done|]. simpl fst.
    assert (∀ l, l ∈ p :: ps → font_size l = font_size first) as Hps.
    { intros l Hl. apply Hall. rewrite <-Hfp in Hl.
      by apply list_elem_of_filter in Hl as [_ ?]. }
    destruct (max_list_spec (font_size p) (map font_size ps)) as [Hin _].
    change (font_size p :: map font_size ps) with (map font_size (p :: ps)) in Hin.
    apply list_elem_of_fmap in Hin as (m & Hm & Hmin).
    rewrite Hm, (Hps m Hmin). by rewrite filter_all by exact Hps.
  - rewrite heading_candidates_filter.
    assert (filter _ (first :: rest) = []) as ->; [|done].
    destruct (filter _ (first :: rest)) as [|c cs] eqn:Hf; [done|]. exfalso.
    assert (c ∈ c :: cs) as Hc by (by left). rewrite <-Hf in Hc.
    apply list_elem_of_filter in Hc as [(_ & Hlt & _) Hc].
    rewrite (Hall c Hc) in Hlt. by apply (irreflexivity Qclt) in Hlt.
Qed.

Lemma uniform_font_no_outline_witness :
  infer fragments = Some (mkDocumentStructure "a b c" []).
Proof.
  apply (uniform_font_no_outline
           (mkLine "a" (qz 10) 0 (bx 0 100 100 110))
           [mkLine "b" (qz 10) 0 (bx 0 112 100 120);
            mkLine "c" (qz 10) 0 (bx 0 128 100 140)]).
  repeat constructor.
Defined.

Example report_structure :
  extract_document_structure (λ _, inr report) "report.pdf"
  = Some (mkDocumentStructure "Annual Report"
            [mkOutlineEntry "H1" "Summary" 1; mkOutlineEntry "H2" "Details" 2]).
Proof. by vm_compute. Qed.

Lemma level_name_inj (i j : nat) :
  i < 4 → j < 4 → Spec.level_name i = Spec.level_name j → i = j.
Proof.
  intros Hi Hj.
  do 4 (destruct i as [|i]; [do 4 (destruct j as [|j]; [done|]); lia|]). lia.
Qed.

(** X12: the levels of an outline have no gap: with k distinct candidate
    font sizes, exactly the first min(k, 4) of the levels H1, H2, H3, H4
    occur in the outline; an outline of any candidates has an H1. *)
Theorem levels_without_gaps (candidates : list Line) :
  (∀ i, i < 4 →
     (∃ e, e ∈ build_outline candidates ∧ level e = Spec.level_name i)
     ↔ i < length (heading_font_sizes candidates))
  ∧ (candidates ≠ [] → ∃ e, e ∈ build_outline candidates ∧ level e = "H1").
Proof.
  assert (∀ i, i < 4 → i < length (heading_font_sizes candidates) →
               ∃ e, e ∈ build_outline candidates ∧ level e = Spec.level_name i)
    as Hfill.
  { intros i Hi Hlen. apply lookup_lt_is_Some in Hlen as [s Hs].
    assert (s ∈ map font_size candidates) as Hin.
    { apply heading_font_sizes_elem. by eapply list_elem_of_lookup_2. }
    apply list_elem_of_fmap in Hin as (c & -> & Hc).
    eexists. split; [apply build_outline_elem; by exists c, i|done]. }
  split.
  - intros i Hi. split; [|by apply Hfill].
    intros (e & He & Hlevel).
    apply build_outline_elem in He as (c & j & _ & Hj & Hs & ->). simpl in Hlevel.
    apply level_name_inj in Hlevel; [|done..]. subst j.
    by apply lookup_lt_Some in Hs.
  - intros Hne. apply (Hfill 0); [lia|].
    destruct candidates as [|c cs]; [done|].
    assert (font_size c ∈ heading_font_sizes (c :: cs)) as Hin.
    { apply heading_font_sizes_elem. by left. }
    apply list_elem_of_lookup in Hin as [i Hi]. apply lookup_lt_Some in Hi. lia.
Qed.

(** ** The whole pipeline *)

Lemma merge_elem_run (t : Qc) (lines : list Line) (o : Line) :
  o ∈ Spec.merge t lines →
  ∃ first others,
    o = Spec.fuse_all first others
    ∧ Forall (Spec.close_to first) others
    ∧ ∀ c, c ∈ first :: others → c ∈ lines.
Proof.
  destruct (merge_runs t lines) as (rs & <- & Hruns).
  intros [i Hi]%list_elem_of_lookup.
  destruct (Forall2_lookup_r _ _ _ _ _ Hruns Hi)
    as (r & Hr & first & others & -> & -> & Hclose).
  exists first, others. split_and!; [done..|].
  intros c Hc. apply list_elem_of_In, in_concat.
  exists (first :: others). split; apply list_elem_of_In; [|done].
  by eapply list_elem_of_lookup_2.
Qed.

Lemma merge_elem_of_line (t : Qc) (lines : list Line) (l : Line) :
  l ∈ lines → ∃ o, o ∈ Spec.merge t lines ∧ page_num o = page_num l.
Proof.
  destruct (merge_runs t lines) as (rs & <- & Hruns).
  intros (r & Hr%list_elem_of_In & Hl%list_elem_of_In)%list_elem_of_In%in_concat.
  apply list_elem_of_lookup in Hr as [i Hi].
  destruct (Forall2_lookup_l _ _ _ _ _ Hruns Hi)
    as (o & Ho & first & others & -> & -> & Hclose).
  exists (Spec.fuse_all first others). split; [by eapply list_elem_of_lookup_2|].
  rewrite fuse_all_page_num. symmetry.
  by apply (close_to_run first others).
Qed.

Lemma merge_elem_page (t : Qc) (lines : list Line) (o : Line) :
  o ∈ Spec.merge t lines → ∃ l, l ∈ lines ∧ page_num o = page_num l.
Proof.
  intros (first & others & -> & _ & Hin)%merge_elem_run.
  exists first. split; [apply Hin; by left|apply fuse_all_page_num].
Qed.

Lemma infer_outline_page (lines : list Line) (d : DocumentStructure) (e : OutlineEntry) :
  infer lines = Some d → e ∈ outline d →
  ∃ l, l ∈ lines ∧ page e = (page_num l + 1)%Z.
Proof.
  destruct lines as [|first rest].
  - intros [= <-] He. by apply elem_of_nil in He.
  - destruct (infer_cons first rest) as (b & _ & _ & ->).
    intros [= <-] He. simpl in He.
    apply build_outline_elem in He as (c & i & Hc & _ & _ & ->).
    rewrite heading_candidates_filter in Hc.
    apply list_elem_of_filter in Hc as [_ Hc]. by exists c.
Qed.

Lemma infer_outline_sorted (lines : list Line) (d : DocumentStructure) :
  infer lines = Some d →
  StronglySorted (λ a b, (page a ≤ page b)%Z) (outline d).
Proof.
  destruct lines as [|first rest].
  - intros [= <-]. constructor.
  - destruct (infer_cons first rest) as (b & _ & _ & ->). intros [= <-]. simpl.
    rewrite build_outline_sorted.
    apply (StronglySorted_fmap _ (λ a b, heading_lt b a = false)).
    + intros x y Hxy. apply tuple_lt_false in Hxy as [?|[? _]]; simpl in *; lia.
    + apply sort_sorted; [apply heading_lt_irrefl|apply heading_lt_trans].
Qed.

(** X13: in the result for a document that opens and is read, every entry of the
    outline has a page number between 1 and the number of pages, and the
    page numbers never decrease along the outline. *)
Theorem outline_pages_of_document (fitz_open : string → string + Opened)
    (pdf_path : string) (doc : Doc) :
  fitz_open pdf_path = inr doc →
  ∃ d : DocumentStructure,
    extract_document_structure fitz_open pdf_path = Some d
    ∧ (∀ e, e ∈ outline d → (1 ≤ page e ≤ Z.of_nat (length doc))%Z)
    ∧ StronglySorted (λ a b, (page a ≤ page b)%Z) (outline d).
Proof.
  intros Hopen. rewrite (extract_opened_raw_lines _ _ _ Hopen).
  destruct (infer_total (Spec.merge (Qc_of_Z 5) (raw_lines doc))) as [d Hd].
  exists d. split_and!; [done| |by eapply infer_outline_sorted].
  intros e He.
  destruct (infer_outline_page _ _ _ Hd He) as (o & Ho & ->).
  apply merge_elem_page in Ho as (l & Hl & ->).
  apply raw_lines_elem in Hl as (p & page & _ & _ & line & Hp & _ & _ & _ & _ & Hrec).
  apply line_record_Some in Hrec as (_ & _ & _ & _ & _ & _ & -> & _).
  apply lookup_lt_Some in Hp. lia.
Qed.

Lemma outline_pages_of_document_witness :
  ∃ d : DocumentStructure,
    extract_document_structure (λ _, inr report) "report.pdf" = Some d
    ∧ (∀ e, e ∈ outline d → (1 ≤ page e ≤ Z.of_nat (length report))%Z)
    ∧ StronglySorted (λ a b, (page a ≤ page b)%Z) (outline d).
Proof.
  apply (outline_pages_of_document (λ _, inr report) "report.pdf" report).
  reflexivity.
Defined.

Lemma join_trimmed (l : list string) :
  l ≠ [] → Forall trimmed l → trimmed (Py.join " " l).
Proof.
  induction l as [|x l IH]; [done|]. intros _ Hall.
  apply Forall_cons in Hall as [(Hx & Hhead & Hlast) Hall].
  destruct l as [|y l]; [done|].
  destruct (IH ltac:(done) Hall) as (Hj & _ & Hjlast).
  rewrite join_cons by done. split_and!.
  - by intros [? _]%append_empty.
  - by rewrite head_space_append.
  - rewrite last_space_append by done. by rewrite last_space_append.
Qed.

Lemma merge_trimmed (t : Qc) (lines : list Line) :
  Forall (λ l, trimmed (text l)) lines →
  Forall (λ l, trimmed (text l)) (Spec.merge t lines).
Proof.
  intros Hall. apply Forall_forall. intros o Ho.
  apply merge_elem_run in Ho as (first & others & -> & _ & Hin).
  rewrite fuse_all_text. apply join_trimmed; [done|].
  apply Forall_fmap, Forall_forall. intros c Hc. simpl.
  rewrite Forall_forall in Hall. by apply Hall, Hin.
Qed.

Lemma title_extraction_trimmed (lines : list Line) :
  Forall (λ l, trimmed (text l)) lines →
  (filter (λ l, page_num l = 0%Z) lines = [] ∧ (title_extraction lines).1 = "")
  ∨ (filter (λ l, page_num l = 0%Z) lines ≠ []
     ∧ trimmed (title_extraction lines).1).
Proof.
  intros Hall. unfold title_extraction.
  destruct (filter (λ l, page_num l = 0%Z) lines) as [|p ps] eqn:Hfp; [by left|].
  right. split; [done|]. simpl fst.
  destruct (max_list_spec (font_size p) (map font_size ps)) as [Hin _].
  set (m := Py.max_list (font_size p) (map font_size ps)) in *.
  change (font_size p :: map font_size ps) with (map font_size (p :: ps)) in Hin.
  apply list_elem_of_fmap in Hin as (l & Hm & Hl).
  assert (l ∈ filter (λ line, font_size line = m) (p :: ps)) as Hsel
    by (by apply list_elem_of_filter).
  apply join_trimmed.
  - intros Hnil%fmap_nil_inv. rewrite Hnil in Hsel. by apply elem_of_nil in Hsel.
  - apply Forall_fmap, Forall_forall. intros c Hc. simpl.
    apply list_elem_of_filter in Hc as [_ Hc]. rewrite <-Hfp in Hc.
    apply list_elem_of_filter in Hc as [_ Hc].
    rewrite Forall_forall in Hall. by apply Hall.
Qed.

Lemma infer_title (lines : list Line) (d : DocumentStructure) :
  infer lines = Some d → title d = (title_extraction lines).1.
Proof.
  destruct lines as [|first rest]; [by intros [= <-]|].
  destruct (infer_cons first rest) as (b & _ & _ & ->). by intros [= <-].
Qed.

(** X14: the title of a document that opens and is read is empty or a text without
    white space at its ends, and it is empty exactly when no line was
    extracted from the first page. *)
Theorem title_of_document (fitz_open : string → string + Opened)
    (pdf_path : string) (doc : Doc) :
  fitz_open pdf_path = inr doc →
  ∃ (refs : list nat) (h vs : list Line) (d : DocumentStructure),
    get_all_text_lines doc [] = Some (refs, h)
    ∧ deref h refs = Some vs
    ∧ extract_document_structure fitz_open pdf_path = Some d
    ∧ (title d = "" ∨ trimmed (title d))
    ∧ (title d = "" ↔ Forall (λ l, page_num l ≠ 0%Z) vs).
Proof.
  intros Hopen. destruct (get_all_text_lines_run doc) as (Hrun & Hvs).
  rewrite (extract_opened_raw_lines _ _ _ Hopen).
  destruct (infer_total (Spec.merge (Qc_of_Z 5) (raw_lines doc))) as [d Hd].
  pose proof (extracted_lines_of_doc_trimmed doc) as Hraw.
  pose proof (title_extraction_trimmed _ (merge_trimmed (Qc_of_Z 5) _ Hraw)) as Htitle.
  eexists _, _, (raw_lines doc), d.
  split_and!; [exact Hrun|exact Hvs|done| |]; rewrite (infer_title _ _ Hd).
  - destruct Htitle as [[_ ->]|[_ Htr]]; [by left|by right].
  - destruct Htitle as [[Hnone ->]|[Hsome Htr]].
    + split; [intros _|done]. apply Forall_forall. intros l Hl Hpage.
      destruct (merge_elem_of_line (Qc_of_Z 5) _ l Hl) as (o & Ho & Hop).
      assert (o ∈ filter (λ l, page_num l = 0%Z)
                    (Spec.merge (Qc_of_Z 5) (raw_lines doc)))
        as Hin by (apply list_elem_of_filter; split; [congruence|done]).
      rewrite Hnone in Hin. by apply elem_of_nil in Hin.
    + split.
      * intros Hempty. by destruct Htr as [Hne _].
      * intros Hno. exfalso. apply Hsome.
        destruct (filter _ (Spec.merge _ _)) as [|o os] eqn:Hf; [done|].
        assert (o ∈ o :: os) as Ho by (by left). rewrite <-Hf in Ho.
        apply list_elem_of_filter in Ho as [Hpage Ho].
        apply merge_elem_page in Ho as (l & Hl & Hlp).
        rewrite Forall_forall in Hno. exfalso. apply (Hno l Hl). congruence.
Qed.

Lemma title_of_document_witness :
  ∃ (refs : list nat) (h vs : list Line) (d : DocumentStructure),
    get_all_text_lines report [] = Some (refs, h)
    ∧ deref h refs = Some vs
    ∧ extract_document_structure (λ _, inr report) "report.pdf" = Some d
    ∧ (title d = "" ∨ trimmed (title d))
    ∧ (title d = "" ↔ Forall (λ l, page_num l ≠ 0%Z) vs).
Proof.
  apply (title_of_document (λ _, inr report) "report.pdf" report).
  reflexivity.
Defined.

(** ** process_pdfs *)

Lemma length_append (a b : string) :
  String.length (a +:+ b) = String.length a + String.length b.
Proof.
  induction a as [|c a IH]; [done|].
  change (S (String.length (a +:+ b)) = S (String.length a) + String.length b).
  by rewrite IH.
Qed.

Lemma append_cancel_r (a b c : string) : a +:+ c = b +:+ c → a = b.
Proof.
  revert b. induction a as [|x a IH]; intros [|y b] Heq; [done| | |].
  - apply (f_equal String.length) in Heq.
    rewrite !length_append in Heq. simpl in Heq. lia.
  - apply (f_equal String.length) in Heq.
    rewrite !length_append in Heq. simpl in Heq. lia.
  - injection Heq as -> Heq. f_equal. by apply IH.
Qed.

Lemma output_file_stem (stem : string → string) (f g : string) :
  output_file stem f = output_file stem g ↔ stem f = stem g.
Proof.
  unfold output_file. split; [|by intros ->].
  intros Heq. apply (inj (String.append "/app/output/")) in Heq.
  by apply append_cancel_r in Heq.
Qed.

Lemma unreadable_raises (fitz_open : string → string + Opened) (f : string) :
  unreadable fitz_open f = true ↔ extract_document_structure fitz_open f = None.
Proof.
  unfold unreadable. destruct (fitz_open f) as [e|[doc|read e]] eqn:Hopen.
  - unfold extract_document_structure. rewrite Hopen. by split.
  - destruct (extract_document_structure_total _ _ _ Hopen) as [d ->]. by split.
  - by rewrite (extract_document_structure_raises _ _ _ _ Hopen).
Qed.

Lemma dumped_prefix (fitz_open : string → string + Opened) (found : list string) :
  Forall (λ f, unreadable fitz_open f = false) (dumped fitz_open found)
  ∧ (dumped fitz_open found = found
     ∨ ∃ f rest, found = dumped fitz_open found ++ f :: rest
                 ∧ unreadable fitz_open f = true).
Proof.
  induction found as [|f found [IHall IHcut]]; [by split; [constructor|left]|].
  simpl. destruct (unreadable fitz_open f) eqn:Hf.
  - split; [constructor|]. right. by exists f, found.
  - split; [by constructor|].
    destruct IHcut as [->|(g & rest & Hcut & Hg)]; [by left|].
    right. exists g, rest. split; [|done]. simpl. by rewrite <-Hcut.
Qed.

(** The loop stops in front of the first file that raises, with what it
    has dumped until then. *)
Lemma process_pdfs_dumped (fitz_open : string → string + Opened)
    (stem : string → string) (found : list string) :
  ∀ out : gmap string DocumentStructure,
    process_pdfs fitz_open stem found out
    = ((process_pdfs fitz_open stem (dumped fitz_open found) out).1,
       bool_decide (dumped fitz_open found = found)).
Proof.
  induction found as [|f found IH]; intros out; [done|].
  simpl. destruct (unreadable fitz_open f) eqn:Hf.
  - apply unreadable_raises in Hf. by rewrite Hf.
  - simpl. destruct (extract_document_structure fitz_open f) as [d|] eqn:Hd.
    + rewrite IH. f_equal. apply bool_decide_ext. split; [by intros ->|].
      by intros [= ?].
    + apply unreadable_raises in Hd. congruence.
Qed.

Lemma process_pdfs_spec (fitz_open : string → string + Opened) (stem : string → string)
    (found : list string) :
  Forall (λ f, unreadable fitz_open f = false) found →
  ∀ out : gmap string DocumentStructure,
    ∃ out' : gmap string DocumentStructure,
      process_pdfs fitz_open stem found out = (out', true)
      ∧ (∀ f, f ∈ found →
           ∃ g, g ∈ found ∧ stem g = stem f
                ∧ out' !! output_file stem f = extract_document_structure fitz_open g)
      ∧ (∀ pre f post, found = pre ++ f :: post →
           (∀ g, g ∈ post → stem g ≠ stem f) →
           out' !! output_file stem f = extract_document_structure fitz_open f)
      ∧ (∀ p, (∀ f, f ∈ found → output_file stem f ≠ p) → out' !! p = out !! p).
Proof.
  induction found as [|f0 found IH]; intros Hall out.
  - exists out. split_and!; [done| | |done].
    + by intros f ?%elem_of_nil.
    + intros [|??] ?? ?; discriminate.
  - apply Forall_cons in Hall as [Hf0 Hall].
    destruct (extract_document_structure fitz_open f0) as [d0|] eqn:Hd0;
      [|apply unreadable_raises in Hd0; congruence].
    destruct (IH Hall (<[output_file stem f0 := d0]> out))
      as (out' & Hrun & Hsome & Hlast & Hframe).
    exists out'. split_and!.
    + simpl. by rewrite Hd0.
    + intros f Hf.
      destruct (decide (Exists (λ g, stem g = stem f) found)) as [Hex|Hnex].
      * apply Exists_exists in Hex as (g & Hg & Hgf).
        destruct (Hsome g Hg) as (g' & Hg' & Hstem & Hout).
        exists g'. split_and!; [by right|congruence|].
        by rewrite <-(proj2 (output_file_stem stem g f) Hgf).
      * assert (f = f0) as ->.
        { apply elem_of_cons in Hf as [?|Hf]; [done|].
          exfalso. apply Hnex, Exists_exists. by exists f. }
        exists f0. split_and!; [by left|done|].
        rewrite Hframe, lookup_insert_eq; [done|].
        intros g Hg Heq. apply (proj1 (output_file_stem stem g f0)) in Heq.
        apply Hnex, Exists_exists. eauto.
    + intros [|f1 pre] f post Heq Hpost; simpl in Heq; injection Heq as -> ->.
      * rewrite Hframe, lookup_insert_eq; [done|].
        intros g Hg Heq. apply (proj1 (output_file_stem stem g f)) in Heq.
        by apply (Hpost g).
      * by apply (Hlast pre f post).
    + intros p Hp. rewrite Hframe.
      * apply lookup_insert_ne. apply Hp. by left.
      * intros f Hf. apply Hp. by right.
Qed.

(** X15: [process_pdfs] reads the found files in order and stops at
    the first one that opens but cannot be read to its end, whose
    exception nothing catches: the loop runs to its end iff there is no
    such file.  Every file in front of that file has a dump, also a file
    that cannot be opened, whose dump is the sentinel.  The path of stem s
    holds the result of the last of these files of stem s, and the other
    paths, among them those of the files from the raising one on, keep
    what they held. *)
Theorem process_pdfs_dumps_until_raise (fitz_open : string → string + Opened)
    (stem : string → string) (found : list string)
    (out : gmap string DocumentStructure) :
  ∃ out' : gmap string DocumentStructure,
    process_pdfs fitz_open stem found out
    = (out', bool_decide (dumped fitz_open found = found))
    ∧ (dumped fitz_open found = found
       ∨ ∃ f rest read e, found = dumped fitz_open found ++ f :: rest
                          ∧ fitz_open f = inr (Unreadable read e)
                          ∧ extract_document_structure fitz_open f = None)
    ∧ (∀ f, f ∈ dumped fitz_open found → is_Some (out' !! output_file stem f))
    ∧ (∀ pre f post, dumped fitz_open found = pre ++ f :: post →
         (∀ g, g ∈ post → stem g ≠ stem f) →
         out' !! output_file stem f = extract_document_structure fitz_open f
         ∧ ∀ e, fitz_open f = inl e →
             out' !! output_file stem f
             = Some (mkDocumentStructure ("Error: " +:+ e) []))
    ∧ (∀ p, (∀ f, f ∈ dumped fitz_open found → output_file stem f ≠ p) →
         out' !! p = out !! p).
Proof.
  destruct (dumped_prefix fitz_open found) as [Hall Hcut].
  destruct (process_pdfs_spec fitz_open stem _ Hall out)
    as (out' & Hrun & Hsome & Hlast & Hframe).
  exists out'. split_and!; [| | | |done].
  - by rewrite process_pdfs_dumped, Hrun.
  - destruct Hcut as [?|(f & rest & Hfound & Hf)]; [by left|right].
    pose proof Hf as Hnone. apply unreadable_raises in Hnone.
    unfold unreadable in Hf.
    destruct (fitz_open f) as [?|[?|read e]] eqn:Hopen; try done.
    by exists f, rest, read, e.
  - intros f Hf. destruct (Hsome f Hf) as (g & Hg & _ & ->).
    rewrite Forall_forall in Hall. specialize (Hall g Hg).
    destruct (extract_document_structure fitz_open g) as [d|] eqn:Hd; [by exists d|].
    apply unreadable_raises in Hd. congruence.
  - intros pre f post Hfound Hpost. split; [by apply (Hlast pre f post)|].
    intros e He. rewrite (Hlast pre f post) by done.
    unfold extract_document_structure. by rewrite He.
Qed.

(** A batch of four files: the file that does not open gets the
    sentinel and the batch goes on, the encrypted file stops it, and the
    file behind it gets no dump. *)
Example batch_stops_at_encrypted_file :
  let run := process_pdfs sample_files sample_stem
               ["a.pdf"; "broken.pdf"; "locked.pdf"; "c.pdf"] ∅ in
  run.2 = false
  ∧ run.1 !! "/app/output/a.json" = Some (mkDocumentStructure "Notes" [])
  ∧ run.1 !! "/app/output/broken.json"
    = Some (mkDocumentStructure "Error: cannot open broken file" [])
  ∧ run.1 !! "/app/output/locked.json" = None
  ∧ run.1 !! "/app/output/c.json" = None.
Proof. by vm_compute. Qed.

(** ** Entries of the outline of a document *)

Lemma infer_outline_elem (lines : list Line) (d : DocumentStructure) (e : OutlineEntry) :
  infer lines = Some d → e ∈ outline d →
  ∃ (l : Line) (i : nat),
    l ∈ lines ∧ i < 4 ∧ length (Py.split (text l)) < 20
    ∧ e = mkOutlineEntry (Spec.level_name i) (text l) (page_num l + 1).
Proof.
  destruct lines as [|first rest].
  - intros [= <-] He. by apply elem_of_nil in He.
  - destruct (infer_cons first rest) as (b & _ & _ & ->).
    intros [= <-] He. simpl in He.
    apply build_outline_elem in He as (c & i & Hc & Hi & _ & ->).
    rewrite heading_candidates_filter in Hc.
    apply list_elem_of_filter in Hc as [(_ & _ & Hwords) Hc]. by exists c, i.
Qed.

(** X16: every entry of the outline of a document that opens and is read has one of
    the levels H1 to H4 and a text that is not empty, has no white space
    at its ends and has fewer than 20 words. *)
Theorem outline_entries_of_document (fitz_open : string → string + Opened)
    (pdf_path : string) (doc : Doc) :
  fitz_open pdf_path = inr doc →
  ∃ d : DocumentStructure,
    extract_document_structure fitz_open pdf_path = Some d
    ∧ ∀ e, e ∈ outline d →
        level e ∈ ["H1"; "H2"; "H3"; "H4"]
        ∧ trimmed (o_text e)
        ∧ length (Py.split (o_text e)) < 20.
Proof.
  intros Hopen. rewrite (extract_opened_raw_lines _ _ _ Hopen).
  destruct (infer_total (Spec.merge (Qc_of_Z 5) (raw_lines doc))) as [d Hd].
  exists d. split; [done|]. intros e He.
  destruct (infer_outline_elem _ _ _ Hd He) as (l & i & Hl & Hi & Hwords & ->).
  simpl. split_and!; [|  |done].
  - do 4 (destruct i as [|i]; [set_solver|]). lia.
  - pose proof (merge_trimmed (Qc_of_Z 5) _ (extracted_lines_of_doc_trimmed doc)) as Htr.
    rewrite Forall_forall in Htr. by apply Htr.
Qed.

Lemma outline_entries_of_document_witness :
  ∃ d : DocumentStructure,
    extract_document_structure (λ _, inr report) "report.pdf" = Some d
    ∧ ∀ e, e ∈ outline d →
        level e ∈ ["H1"; "H2"; "H3"; "H4"]
        ∧ trimmed (o_text e)
        ∧ length (Py.split (o_text e)) < 20.
Proof.
  apply (outline_entries_of_document (λ _, inr report) "report.pdf" report).
  reflexivity.
Defined.
